(** * EEPROM hardware integration (static/js/eeprom.js)

    A shallow embedding of the serial-transport layer of the Genetic
    Circuit Designer: the buffered read loop, the connection manager,
    the command coordinator, the board-scan loop and the diagnostic
    analyzer, together with the properties stated about them.

    Conventions.
    - A JavaScript string is the list of its UTF-16 code units.
    - The module-level [let] variables of eeprom.js are the fields of
      one [State] record, threaded explicitly.
    - Everything outside the module (the Web Serial objects, timers) is
      an oracle: each external call receives its outcome as an argument
      and leaves an [Event] in the ghost field [trace].
    - The read loop runs whenever the caller is suspended in a timed
      wait or between two polls; what its reader delivers then is part
      of the oracle.  No other event handler runs during a call.
    - DOM updates (button captions, the log text area, [console]) are
      not modelled; the DOM elements are taken to exist. *)

From Stdlib Require Import String Ascii.
From Stdlib Require Import List NArith Bool Lia Arith.
From Stdlib Require Import DecimalString.
From Stdlib Require Import FunInd.
Import ListNotations.

(* ================================================================= *)
(** ** JavaScript strings *)

Module Js.

Definition char := N.
Definition str := list char.

(** Code points of a UTF-8 byte sequence (the encoding of the literals
    in this file, as in the source file). *)
Fixpoint utf8_decode (bs : list N) : list N :=
  match bs with
  | [] => []
  | b :: t =>
      if (b <? 128)%N then b :: utf8_decode t
      else if (b <? 224)%N then
        match t with
        | b1 :: t1 => ((b - 192) * 64 + (b1 - 128))%N :: utf8_decode t1
        | _ => []
        end
      else if (b <? 240)%N then
        match t with
        | b1 :: b2 :: t2 =>
            ((b - 224) * 4096 + (b1 - 128) * 64 + (b2 - 128))%N :: utf8_decode t2
        | _ => []
        end
      else
        match t with
        | b1 :: b2 :: b3 :: t3 =>
            ((b - 240) * 262144 + (b1 - 128) * 4096 + (b2 - 128) * 64
             + (b3 - 128))%N :: utf8_decode t3
        | _ => []
        end
  end.

(** UTF-16 code units of a code point. *)
Definition utf16_units (cp : N) : list char :=
  if (cp <? 65536)%N then [cp]
  else [(55296 + (cp - 65536) / 1024)%N; (56320 + (cp - 65536) mod 1024)%N].

(** A string literal of the source as a JavaScript string. *)
Definition lit (s : string) : str :=
  flat_map utf16_units
    (utf8_decode (List.map N_of_ascii (list_ascii_of_string s))).

(** The double quote, which the literals of this file avoid. *)
Definition dquote : str := [34%N].

Definition LF : char := 10%N.
Definition CR : char := 13%N.

(** [WhiteSpace] and [LineTerminator] of ECMAScript: what [trim]
    removes and what [\s] matches. *)
Definition isWhiteSpace (c : char) : bool :=
  ((9 <=? c) && (c <=? 13) || (c =? 32) || (c =? 160) || (c =? 5760)
   || (8192 <=? c) && (c <=? 8202) || (c =? 8232) || (c =? 8233)
   || (c =? 8239) || (c =? 8287) || (c =? 12288) || (c =? 65279))%N.

Definition isDigit (c : char) : bool := ((48 <=? c) && (c <=? 57))%N.

Definition isHexDigit (c : char) : bool :=
  (isDigit c || (65 <=? c) && (c <=? 70) || (97 <=? c) && (c <=? 102))%N.

Fixpoint str_eqb (a b : str) : bool :=
  match a, b with
  | [], [] => true
  | x :: a', y :: b' => (x =? y)%N && str_eqb a' b'
  | _, _ => false
  end.

Fixpoint trimStart (s : str) : str :=
  match s with
  | [] => []
  | c :: t => if isWhiteSpace c then trimStart t else s
  end.

Definition trimEnd (s : str) : str := rev (trimStart (rev s)).

Definition trim (s : str) : str := trimEnd (trimStart s).

Fixpoint startsWith (s p : str) : bool :=
  match p, s with
  | [], _ => true
  | _ :: _, [] => false
  | x :: p', y :: s' => (x =? y)%N && startsWith s' p'
  end.

Definition endsWith (s p : str) : bool := startsWith (rev s) (rev p).

Fixpoint includes (s p : str) : bool :=
  startsWith s p ||
  match s with
  | [] => false
  | _ :: t => includes t p
  end.

(** ASCII part of [toLowerCase]; other code units are left alone. *)
Definition toLowerCase (s : str) : str :=
  List.map (fun c => if ((65 <=? c) && (c <=? 90))%N then (c + 32)%N else c) s.

(** [xs.join(sep)] *)
Fixpoint join (sep : str) (xs : list str) : str :=
  match xs with
  | [] => []
  | [x] => x
  | x :: rest => x ++ sep ++ join sep rest
  end.

(** Template-literal rendering of a non-negative integer. *)
Definition ofNat (n : nat) : str :=
  lit (NilEmpty.string_of_uint (Nat.to_uint n)).

(** [xs.slice(-n)] for [n > 0], and [xs.slice(Math.max(0, xs.length - n))]. *)
Definition lastN {A} (n : nat) (xs : list A) : list A :=
  skipn (length xs - n) xs.

(** Prepend one code unit to the first piece. *)
Definition cons_head (c : char) (ps : list str) : list str :=
  match ps with
  | [] => [[c]]
  | p :: ps' => (c :: p) :: ps'
  end.

(** [s.split(/\r?\n/)]: scanning from the left, a line feed, or a
    carriage return immediately followed by one, ends the current piece;
    the result always has at least one piece. *)
Function split_lines (s : str) : list str :=
  match s with
  | [] => [[]]
  | c :: t =>
      if (c =? LF)%N then [] :: split_lines t
      else
        match t with
        | [] => [[c]]
        | d :: t' =>
            if ((c =? CR) && (d =? LF))%N then [] :: split_lines t'
            else cons_head c (split_lines t)
        end
  end.

(** [s.replace(/\r?\n/g, '')]: the string with every terminator removed. *)
Function strip_terminators (s : str) : str :=
  match s with
  | [] => []
  | c :: t =>
      if (c =? LF)%N then strip_terminators t
      else
        match t with
        | [] => [c]
        | d :: t' =>
            if ((c =? CR) && (d =? LF))%N then strip_terminators t'
            else c :: strip_terminators t
        end
  end.

Definition hasLF (s : str) : bool := existsb (fun c => (c =? LF)%N) s.

End Js.

(* ================================================================= *)
(** ** Regular expressions

    The patterns of eeprom.js are only ever tested for the existence of
    a match, so they are modelled by their language, decided with
    derivatives. *)

Module Re.

Import Js.

Inductive re : Type :=
| Void
| Eps
| Cls (p : char -> bool)
| Cat (a b : re)
| Alt (a b : re)
| Star (a : re).

Fixpoint nullable (r : re) : bool :=
  match r with
  | Void => false
  | Eps => true
  | Cls _ => false
  | Cat a b => nullable a && nullable b
  | Alt a b => nullable a || nullable b
  | Star _ => true
  end.

Definition cat (a b : re) : re :=
  match a, b with
  | Void, _ => Void
  | _, Void => Void
  | Eps, _ => b
  | _, _ => Cat a b
  end.

Definition alt (a b : re) : re :=
  match a, b with
  | Void, _ => b
  | _, Void => a
  | _, _ => Alt a b
  end.

Fixpoint deriv (c : char) (r : re) : re :=
  match r with
  | Void => Void
  | Eps => Void
  | Cls p => if p c then Eps else Void
  | Cat a b =>
      alt (cat (deriv c a) b) (if nullable a then deriv c b else Void)
  | Alt a b => alt (deriv c a) (deriv c b)
  | Star a => cat (deriv c a) (Star a)
  end.

(** [s] as a whole is in the language of [r]. *)
Fixpoint accepts (r : re) (s : str) : bool :=
  match s with
  | [] => nullable r
  | c :: t => accepts (deriv c r) t
  end.

Definition any : re := Cls (fun _ => true).
Definition chr (c : char) : re := Cls (fun x => (x =? c)%N).
Definition oneOf (s : string) : re := Cls (fun x => existsb (N.eqb x) (lit s)).
Definition space : re := Cls isWhiteSpace.      (* \s *)
Definition digit : re := Cls isDigit.           (* \d *)
Definition hex : re := Cls isHexDigit.          (* [0-9A-Fa-f] *)
Definition text (s : string) : re :=
  fold_right (fun c r => Cat (chr c) r) Eps (lit s).
Definition plus (r : re) : re := Cat r (Star r).                (* r+ *)
Definition opt (r : re) : re := Alt r Eps.                      (* r? *)
Fixpoint rep (n : nat) (r : re) : re :=                         (* r{n} *)
  match n with O => Eps | S n' => Cat r (rep n' r) end.
Definition atLeast (n : nat) (r : re) : re := Cat (rep n r) (Star r). (* r{n,} *)
Fixpoint upTo (n : nat) (r : re) : re :=                        (* r{0,n} *)
  match n with O => Eps | S n' => opt (Cat r (upTo n' r)) end.
Definition between (n m : nat) (r : re) : re :=                 (* r{n,m} *)
  Cat (rep n r) (upTo (m - n) r).
Fixpoint seq (rs : list re) : re :=
  match rs with [] => Eps | r :: rs' => Cat r (seq rs') end.

(** [line.match(/r/)] is truthy: some substring of [s] matches. *)
Definition test (r : re) (s : str) : bool :=
  accepts (Cat (Star any) (Cat r (Star any))) s.

(** [line.match(/^r/)] is truthy: some prefix of [s] matches. *)
Definition testAtStart (r : re) (s : str) : bool :=
  accepts (Cat r (Star any)) s.

End Re.

Import Js.

(* ================================================================= *)
(** ** Module state, external events, and the effect monad *)

Definition PortId := nat.

(** What the module does to the outside world, in program order. *)
Inductive Event : Type :=
| EvRequestPort                        (* navigator.serial.requestPort() *)
| EvGetPorts                           (* navigator.serial.getPorts() *)
| EvPortOpen (p : PortId)              (* selectedPort.open({...115200 8N1}) *)
| EvPortClose (p : PortId)             (* port.close() / selectedPort.close() *)
| EvReaderCancel                       (* reader.cancel() *)
| EvAwaitReadableClosed                (* await readableStreamClosed.catch(...) *)
| EvWriterClose                        (* writer.close() *)
| EvAwaitWritableClosed                (* await writableStreamClosed.catch(...) *)
| EvPipeReadable (p : PortId)          (* port.readable.pipeTo(...) *)
| EvPipeWritable (p : PortId)          (* ....pipeTo(port.writable) *)
| EvStartReadLoop                      (* readLoop() *)
| EvSendCommand (command : str)        (* sendCommand(command) is entered *)
| EvWrite (data : str)                 (* writer.write(data) *)
| EvSetSignals (dtr rts : bool)        (* port.setSignals({...}) *)
| EvDelay (ms : N).                    (* setTimeout(resolve, ms) *)

(** The module-level variables of eeprom.js, plus the ghost [trace]. *)
Record State : Type := mkState {
  LOG_LINES : list str;
  port : option PortId;
  reader : option PortId;
  writer : option PortId;
  textDecoder : option PortId;
  textEncoder : option PortId;
  readableStreamClosed : option PortId;
  writableStreamClosed : option PortId;
  isConnecting : bool;
  lineBuffer : str;
  trace : list Event
}.

(** The values the variables are initialised with. *)
Definition initial : State :=
  mkState [] None None None None None None None false [] [].

Definition set_LOG_LINES (v : list str) (s : State) : State :=
  mkState v (port s) (reader s) (writer s) (textDecoder s) (textEncoder s)
    (readableStreamClosed s) (writableStreamClosed s) (isConnecting s)
    (lineBuffer s) (trace s).
Definition set_port (v : option PortId) (s : State) : State :=
  mkState (LOG_LINES s) v (reader s) (writer s) (textDecoder s) (textEncoder s)
    (readableStreamClosed s) (writableStreamClosed s) (isConnecting s)
    (lineBuffer s) (trace s).
Definition set_reader (v : option PortId) (s : State) : State :=
  mkState (LOG_LINES s) (port s) v (writer s) (textDecoder s) (textEncoder s)
    (readableStreamClosed s) (writableStreamClosed s) (isConnecting s)
    (lineBuffer s) (trace s).
Definition set_writer (v : option PortId) (s : State) : State :=
  mkState (LOG_LINES s) (port s) (reader s) v (textDecoder s) (textEncoder s)
    (readableStreamClosed s) (writableStreamClosed s) (isConnecting s)
    (lineBuffer s) (trace s).
Definition set_textDecoder (v : option PortId) (s : State) : State :=
  mkState (LOG_LINES s) (port s) (reader s) (writer s) v (textEncoder s)
    (readableStreamClosed s) (writableStreamClosed s) (isConnecting s)
    (lineBuffer s) (trace s).
Definition set_textEncoder (v : option PortId) (s : State) : State :=
  mkState (LOG_LINES s) (port s) (reader s) (writer s) (textDecoder s) v
    (readableStreamClosed s) (writableStreamClosed s) (isConnecting s)
    (lineBuffer s) (trace s).
Definition set_readableStreamClosed (v : option PortId) (s : State) : State :=
  mkState (LOG_LINES s) (port s) (reader s) (writer s) (textDecoder s)
    (textEncoder s) v (writableStreamClosed s) (isConnecting s)
    (lineBuffer s) (trace s).
Definition set_writableStreamClosed (v : option PortId) (s : State) : State :=
  mkState (LOG_LINES s) (port s) (reader s) (writer s) (textDecoder s)
    (textEncoder s) (readableStreamClosed s) v (isConnecting s)
    (lineBuffer s) (trace s).
Definition set_isConnecting (v : bool) (s : State) : State :=
  mkState (LOG_LINES s) (port s) (reader s) (writer s) (textDecoder s)
    (textEncoder s) (readableStreamClosed s) (writableStreamClosed s) v
    (lineBuffer s) (trace s).
Definition set_lineBuffer (v : str) (s : State) : State :=
  mkState (LOG_LINES s) (port s) (reader s) (writer s) (textDecoder s)
    (textEncoder s) (readableStreamClosed s) (writableStreamClosed s)
    (isConnecting s) v (trace s).
Definition record (e : Event) (s : State) : State :=
  mkState (LOG_LINES s) (port s) (reader s) (writer s) (textDecoder s)
    (textEncoder s) (readableStreamClosed s) (writableStreamClosed s)
    (isConnecting s) (lineBuffer s) (trace s ++ [e]).

(** A session on port [p] with all its streams set up, an empty
    transcript and an empty buffer. *)
Definition connected (p : PortId) : State :=
  mkState [] (Some p) (Some p) (Some p) (Some p) (Some p) (Some p) (Some p)
    false [] [].

(** JavaScript truthiness of an object reference. *)
Definition truthy {A} (o : option A) : bool :=
  match o with Some _ => true | None => false end.

(** [logLine(message)]: push onto the transcript. *)
Definition logLine (message : str) (s : State) : State :=
  set_LOG_LINES (LOG_LINES s ++ [message]) s.

(** *** The read loop (Stream Pipeline) *)

(** What [await reader.read()] can produce. *)
Inductive ReadResult : Type :=
| Chunk (value : str)          (* { value, done: false } *)
| StreamDone                   (* { done: true } *)
| ReadFail (message : str).    (* the promise rejects *)

(** [if (lines[i].trim()) logLine(lines[i].trim())] for one piece. *)
Definition emitLine (s : State) (piece : str) : State :=
  match trim piece with
  | [] => s
  | l => logLine l s
  end.

(** The body of the loop for one chunk [value] (the [if (value)] block). *)
Definition readLoop_value (value : str) (s : State) : State :=
  match value with
  | [] => s
  | _ =>
      let s1 := set_lineBuffer (lineBuffer s ++ value) s in
      let lines := split_lines (lineBuffer s1) in
      let s2 := fold_left emitLine (removelast lines) s1 in
      set_lineBuffer (last lines []) s2
  end.

(** [readLoop()], run on the successive results of [reader.read()].
    When the results are used up the loop is suspended in [read()]. *)
Fixpoint readLoop (rs : list ReadResult) (s : State) : State :=
  if truthy (port s) && truthy (reader s) then
    match rs with
    | [] => s
    | Chunk value :: rs' => readLoop rs' (readLoop_value value s)
    | StreamDone :: _ => s
    | ReadFail message :: _ => logLine (lit "Read error: " ++ message) s
    end
  else s.

(** The loop body applied to successive chunks. *)
Definition feed (chunks : list str) (s : State) : State :=
  fold_left (fun st v => readLoop_value v st) chunks s.

(** The chunk stream of the worked example, and the same stream without
    its last terminator. *)
Definition exampleStream : list str :=
  [lit "ab"; lit "cd" ++ [LF]; lit "ef" ++ [LF] ++ lit "gh" ++ [LF]].

Definition exampleStreamOpen : list str :=
  [lit "ab"; lit "cd" ++ [LF]; lit "ef" ++ [LF] ++ lit "gh"].

(** The lines the loop pushes for a list of complete pieces. *)
Definition emitted (pieces : list str) : list str :=
  filter (fun l => negb (str_eqb l [])) (List.map trim pieces).

(** *** Exceptions over state *)

(** A computation either returns or throws an error with a [message];
    the state reached so far is kept in both cases. *)
Inductive Res (A : Type) : Type :=
| Ok (a : A)
| Throw (message : str).
Arguments Ok {A} a.
Arguments Throw {A} message.

Definition M (A : Type) : Type := State -> Res A * State.

Definition ret {A} (a : A) : M A := fun s => (Ok a, s).

Definition bind {A B} (m : M A) (k : A -> M B) : M B :=
  fun s =>
    match m s with
    | (Ok a, s') => k a s'
    | (Throw e, s') => (Throw e, s')
    end.

Definition throw {A} (message : str) : M A := fun s => (Throw message, s).

(** [try { body } catch (err) { handler(err.message) }] *)
Definition tryCatch {A} (body : M A) (handler : str -> M A) : M A :=
  fun s =>
    match body s with
    | (Ok a, s') => (Ok a, s')
    | (Throw e, s') => handler e s'
    end.

(** Lift a state update. *)
Definition upd (f : State -> State) : M unit := fun s => (Ok tt, f s).

(** Read the state. *)
Definition gets {A} (f : State -> A) : M A := fun s => (Ok (f s), s).

Definition when (b : bool) (m : M unit) : M unit := if b then m else ret tt.

Declare Scope js_scope.
Delimit Scope js_scope with js.
Notation "x <- c ;; k" := (bind c (fun x => k))
  (at level 61, c at next level, right associativity) : js_scope.
Notation "c ;; k" := (bind c (fun _ => k))
  (at level 61, right associativity) : js_scope.
Open Scope js_scope.

(** How an awaited external call ends. *)
Inductive Outcome : Type :=
| Resolves
| Rejects (message : str).

(** An external call: it is recorded, then returns or throws. *)
Definition ext (e : Event) (o : Outcome) : M unit :=
  fun s =>
    match o with
    | Resolves => (Ok tt, record e s)
    | Rejects m => (Throw m, record e s)
    end.

(** [await new Promise(resolve => setTimeout(resolve, ms))].  While the
    caller is suspended the read loop consumes the results [rx] that its
    reader delivers in the meantime. *)
Definition sleep (ms : N) (rx : list ReadResult) : M unit :=
  upd (fun s => readLoop rx (record (EvDelay ms) s)).

Definition run {A} (m : M A) (s : State) : State := snd (m s).
Definition result {A} (m : M A) (s : State) : Res A := fst (m s).

(** The events added to the trace by running [m] from [s]. *)
Definition events {A} (m : M A) (s : State) : list Event :=
  skipn (length (trace s)) (trace (run m s)).

(** The transcript lines added by running [m] from [s]. *)
Definition logged {A} (m : M A) (s : State) : list str :=
  skipn (length (LOG_LINES s)) (LOG_LINES (run m s)).

(* ================================================================= *)
(** ** Command/Response Coordinator *)

(** Calling [writer.write] on a null [writer] is a [TypeError]. *)
Definition nullWriterError : str :=
  lit "Cannot read properties of null (reading 'write')".

(** [await writer.write(data)] *)
Definition writer_write (data : str) (o : Outcome) : M unit :=
  w <- gets writer ;;
  match w with
  | None => throw nullWriterError
  | Some _ => ext (EvWrite data) o
  end.

(** The world around one [sendCommand]: how the write ends, and what
    the reader delivers during the 100 ms flush delay. *)
Record SendEnv : Type := mkSendEnv {
  write_res : Outcome;
  rx_flush : list ReadResult
}.

Definition sendCommand (command : str) (e : SendEnv) : M bool :=
  upd (record (EvSendCommand command)) ;;
  p <- gets port ;;
  w <- gets writer ;;
  busy <- gets isConnecting ;;
  if negb (truthy p) || negb (truthy w) || busy then
    upd (logLine (lit "Error: Not connected to any port.")) ;;
    ret false
  else
    tryCatch
      (writer_write (command ++ [CR; LF]) (write_res e) ;;
       sleep 100 (rx_flush e) ;;
       upd (logLine (lit "> " ++ command)) ;;
       ret true)
      (fun message =>
         upd (logLine (lit "Write error: " ++ message)) ;;
         ret false).

(** *** Prompt wait *)

(** [line.trim().endsWith('>') || line.includes('$')] *)
Definition isPromptLine (line : str) : bool :=
  endsWith (trim line) (lit ">") || includes line (lit "$").

(** [recentLines.some(...)] over the last ten transcript lines. *)
Definition hasPrompt (log : list str) : bool :=
  existsb isPromptLine (lastN 10 log).

(** The condition under which the interval callback resolves:
    [hasPrompt || (Date.now() - startTime) > timeoutMs]. *)
Definition promptCheck (log : list str) (elapsed timeoutMs : N) : bool :=
  hasPrompt log || (timeoutMs <? elapsed)%N.

(** One firing of the 100 ms interval: what the reader delivered since
    the previous firing, and how late the timer fired.  The [k]-th
    firing reads the clock at [100 * k + tick_lag] ms after the start
    (timers do not fire early). *)
Record Tick : Type := mkTick {
  tick_rx : list ReadResult;
  tick_lag : N
}.

Definition idleTick : Tick := mkTick [] 0.

Fixpoint pollPrompt (timeoutMs : N) (k : N) (fuel : nat) (ticks : list Tick)
  : M unit :=
  match fuel with
  | O => ret tt
  | S fuel' =>
      let t := hd idleTick ticks in
      upd (readLoop (tick_rx t)) ;;
      log <- gets LOG_LINES ;;
      if promptCheck log (100 * k + tick_lag t) timeoutMs then ret tt
      else pollPrompt timeoutMs (k + 1) fuel' (tl ticks)
  end.

(** [waitForPrompt(timeoutMs)].  The firing number [timeoutMs/100 + 1]
    is past the timeout whatever the lags are, so that many firings
    always suffice; firings not listed in [ticks] are idle. *)
Definition waitForPrompt (timeoutMs : N) (ticks : list Tick) : M unit :=
  pollPrompt timeoutMs 1 (S (N.to_nat (timeoutMs / 100))) ticks.

Definition waitForEEPROMReadComplete (timeoutMs : N) (ticks : list Tick)
  : M unit := waitForPrompt timeoutMs ticks.

Definition waitForHexDumpComplete (timeoutMs : N) (ticks : list Tick)
  : M unit := waitForPrompt timeoutMs ticks.

(** The firings of the interval seen as steps: [Resolved T k ticks s s']
    when, starting with firing number [k] in state [s], the first firing
    whose check succeeds leaves the state [s']. *)
Inductive Resolved (timeoutMs : N) : N -> list Tick -> State -> State -> Prop :=
| resolved_now k ticks s :
    promptCheck (LOG_LINES (readLoop (tick_rx (hd idleTick ticks)) s))
      (100 * k + tick_lag (hd idleTick ticks)) timeoutMs = true ->
    Resolved timeoutMs k ticks s (readLoop (tick_rx (hd idleTick ticks)) s)
| resolved_later k ticks s s' :
    promptCheck (LOG_LINES (readLoop (tick_rx (hd idleTick ticks)) s))
      (100 * k + tick_lag (hd idleTick ticks)) timeoutMs = false ->
    Resolved timeoutMs (k + 1) (tl ticks)
      (readLoop (tick_rx (hd idleTick ticks)) s) s' ->
    Resolved timeoutMs k ticks s s'.

(* ================================================================= *)
(** ** Connection Manager *)

Record DisconnectEnv : Type := mkDisconnectEnv {
  cancel_res : Outcome;          (* reader.cancel() *)
  writerClose_res : Outcome;     (* writer.close() *)
  portClose_res : Outcome        (* port.close() *)
}.

(** Calling a method on a null [port]. *)
Definition nullPortError : str :=
  lit "Cannot read properties of null (reading 'close')".

Definition disconnectPort (e : DisconnectEnv) : M unit :=
  p <- gets port ;;
  if truthy p then
    tryCatch
      (r <- gets reader ;;
       when (truthy r)
         (ext EvReaderCancel (cancel_res e) ;;
          upd (set_reader None)) ;;
       rc <- gets readableStreamClosed ;;
       when (truthy rc)
         (ext EvAwaitReadableClosed Resolves ;;
          upd (set_readableStreamClosed None)) ;;
       w <- gets writer ;;
       when (truthy w)
         (ext EvWriterClose (writerClose_res e) ;;
          upd (set_writer None)) ;;
       wc <- gets writableStreamClosed ;;
       when (truthy wc)
         (ext EvAwaitWritableClosed Resolves ;;
          upd (set_writableStreamClosed None)) ;;
       upd (set_textDecoder None) ;;
       upd (set_textEncoder None) ;;
       q <- gets port ;;
       match q with
       | Some pid => ext (EvPortClose pid) (portClose_res e)
       | None => throw nullPortError
       end ;;
       upd (logLine (lit "Disconnected from serial port.")))
      (fun message =>
         upd (logLine (lit "Error disconnecting: " ++ message))) ;;
    upd (set_port None) ;;
    upd (set_isConnecting false)
  else ret tt.

Record StreamsEnv : Type := mkStreamsEnv {
  pipeReadable_res : Outcome;    (* port.readable.pipeTo(...) *)
  pipeWritable_res : Outcome     (* ....pipeTo(port.writable) *)
}.

Definition setupSerialStreams (e : StreamsEnv) : M unit :=
  p <- gets port ;;
  match p with
  | None => ret tt
  | Some pid =>
      tryCatch
        (upd (set_textDecoder (Some pid)) ;;
         ext (EvPipeReadable pid) (pipeReadable_res e) ;;
         upd (set_readableStreamClosed (Some pid)) ;;
         upd (set_reader (Some pid)) ;;
         upd (set_textEncoder (Some pid)) ;;
         ext (EvPipeWritable pid) (pipeWritable_res e) ;;
         upd (set_writableStreamClosed (Some pid)) ;;
         upd (set_writer (Some pid)) ;;
         upd (record EvStartReadLoop))
        (fun message =>
           upd (logLine (lit "Error setting up communication: " ++ message)))
  end.

(** [navigator.serial.getPorts()] as [listPorts] uses it: the number of
    ports granted, or a failure. *)
Inductive GetPorts : Type :=
| Granted (n : nat)
| GetPortsFails (message : str).

Definition listPorts (g : GetPorts) : M unit :=
  upd (record EvGetPorts) ;;
  match g with
  | Granted O =>
      upd (logLine (lit "No previously granted ports found. Click " ++ dquote
                    ++ lit "Refresh Ports" ++ dquote
                    ++ lit " to request access."))
  | Granted n =>
      upd (logLine (lit "Found " ++ ofNat n ++ lit " previously granted port(s)."))
  | GetPortsFails message =>
      upd (logLine (lit "Error listing ports: " ++ message))
  end.

(** The world around [performCLIHandshake]. *)
Record HandshakeEnv : Type := mkHandshakeEnv {
  wake_res : Outcome;            (* writer.write('\n\n') *)
  rx_wake : list ReadResult;     (* during the 500 ms wait *)
  help_res : Outcome;            (* writer.write('help\r\n') *)
  rx_help : list ReadResult;     (* during the 800 ms wait *)
  ver_res : Outcome;             (* writer.write('ver\r\n') *)
  rx_ver : list ReadResult;      (* during the 800 ms wait *)
  dtr_res : Outcome;             (* first setSignals *)
  rx_dtr : list ReadResult;
  rts_res : Outcome;             (* second setSignals *)
  rx_rts : list ReadResult
}.

(** The filter that selects the lines counted as device responses. *)
Definition isResponsive (line : str) : bool :=
  includes line (lit "Token:") || includes line (lit "$")
  || includes line (lit "Selected") || includes line (lit "MUX")
  || includes line (lit "help") || includes line (lit "version")
  || (0 <? length (trim line)) && negb (startsWith line (lit ">")).

(** [xs.forEach(x => body(x))] and [for (const x of xs) body(x)]. *)
Fixpoint forEach {X} (xs : list X) (body : X -> M unit) : M unit :=
  match xs with
  | [] => ret tt
  | x :: xs' => body x ;; forEach xs' body
  end.

Definition performCLIHandshake (e : HandshakeEnv) : M unit :=
  upd (set_lineBuffer []) ;;
  beforeLength <- gets (fun s => length (LOG_LINES s)) ;;
  upd (logLine (lit "Sending wake-up sequence...")) ;;
  writer_write [LF; LF] (wake_res e) ;;
  sleep 500 (rx_wake e) ;;
  upd (logLine (lit "Testing CLI responsiveness with probe commands...")) ;;
  writer_write (lit "help" ++ [CR; LF]) (help_res e) ;;
  sleep 800 (rx_help e) ;;
  writer_write (lit "ver" ++ [CR; LF]) (ver_res e) ;;
  sleep 800 (rx_ver e) ;;
  newLines <- gets (fun s => skipn beforeLength (LOG_LINES s)) ;;
  let responsiveLines := filter isResponsive newLines in
  if 0 <? length responsiveLines then
    upd (logLine (lit "✅ Device is responding! Got "
                  ++ ofNat (length responsiveLines) ++ lit " response lines")) ;;
    forEach (firstn 3 responsiveLines)
      (fun line =>
         upd (logLine (lit "📝 Response: " ++ dquote ++ line ++ dquote)))
  else
    upd (logLine (lit "⚠️ Device not responding to probe commands")) ;;
    upd (logLine (lit "This may indicate firmware issues or wrong port")) ;;
    upd (logLine (lit "Attempting to wake device with DTR/RTS toggle...")) ;;
    tryCatch
      (ext (EvSetSignals true false) (dtr_res e) ;;
       sleep 100 (rx_dtr e) ;;
       ext (EvSetSignals false true) (rts_res e) ;;
       sleep 500 (rx_rts e))
      (fun message => upd (logLine (lit "Signal toggle failed: " ++ message))).

(** [navigator.serial.requestPort()]: the port the user picks, or a
    rejection (the dialog was dismissed). *)
Inductive RequestPort : Type :=
| Picked (p : PortId)
| RequestFails (message : str).

(** The world around one [connectToPort]. *)
Record ConnectEnv : Type := mkConnectEnv {
  teardown : DisconnectEnv;      (* for the implicit disconnectPort *)
  selection : option PortId;     (* the port of the selected option; None when
                                    the list is empty or index 0 is selected *)
  requestPort_res : RequestPort;
  getPorts_res : GetPorts;
  selected_readable : bool;      (* selectedPort.readable is set *)
  preClose_res : Outcome;        (* selectedPort.close() *)
  rx_preClose : list ReadResult; (* during the 1000 ms wait *)
  open_res : Outcome;            (* selectedPort.open({...}) *)
  rx_reset : list ReadResult;    (* during the 2000 ms wait *)
  streams : StreamsEnv;
  handshake : HandshakeEnv
}.

(** The part of [connectToPort] inside the [try] block, given the
    selected port. *)
Definition openSelected (selectedPort : PortId) (e : ConnectEnv) : M unit :=
  when (selected_readable e)
    (upd (logLine (lit "Port appears to be already open. Closing first...")) ;;
     ext (EvPortClose selectedPort) (preClose_res e) ;;
     sleep 1000 (rx_preClose e)) ;;
  upd (logLine (lit "Opening serial connection...")) ;;
  ext (EvPortOpen selectedPort) (open_res e) ;;
  upd (set_port (Some selectedPort)) ;;
  upd (logLine (lit "✅ Connected to serial port at 115200 baud.")) ;;
  upd (logLine (lit "⏳ Waiting for Arduino to initialize (2 seconds)...")) ;;
  sleep 2000 (rx_reset e) ;;
  setupSerialStreams (streams e) ;;
  upd (set_isConnecting false) ;;
  upd (logLine (lit "✅ Serial connection established.")) ;;
  upd (logLine (lit "🔍 Testing device responsiveness...")) ;;
  performCLIHandshake (handshake e) ;;
  upd (logLine (lit "🔧 Firmware ready for EEPROM operations")) ;;
  upd (logLine (lit "✅ Device initialization completed.")) ;;
  upd (logLine (lit "🎉 Connection established successfully!")) ;;
  upd (logLine (lit "You can now click " ++ dquote
                ++ lit "Read Circuit from Board" ++ dquote
                ++ lit " to scan for components.")).

(** The [catch] block of [connectToPort]. *)
Definition openFailed (message : str) : M unit :=
  upd (logLine (lit "❌ Error opening port: " ++ message)) ;;
  (if includes message (lit "Failed to open serial port") then
     upd (logLine (lit "💡 Try: 1) Check if another program is using the port 2) Unplug and reconnect the Arduino 3) Select a different port"))
   else if includes message (lit "not found") then
     upd (logLine (lit "💡 Port not found. Try refreshing ports or reconnecting the Arduino."))
   else ret tt) ;;
  upd (set_port None) ;;
  upd (set_isConnecting false).

(** [connectToPort] past the busy check. *)
Definition connectAttempt (e : ConnectEnv) : M unit :=
  p <- gets port ;;
  when (truthy p)
    (upd (logLine (lit "Already connected to a port. Disconnecting first...")) ;;
     disconnectPort (teardown e)) ;;
  upd (set_isConnecting true) ;;
  match selection e with
  | None =>
      upd (logLine (lit "Requesting port access...")) ;;
      upd (record EvRequestPort) ;;
      match requestPort_res e with
      | RequestFails _ =>
          upd (logLine (lit "Port selection cancelled or failed.")) ;;
          upd (set_isConnecting false)
      | Picked selectedPort =>
          upd (logLine (lit "Port selected via dialog.")) ;;
          listPorts (getPorts_res e) ;;
          tryCatch (openSelected selectedPort e) openFailed
      end
  | Some selectedPort =>
      upd (logLine (lit "Attempting to connect to selected port...")) ;;
      tryCatch (openSelected selectedPort e) openFailed
  end.

Definition connectToPort (e : ConnectEnv) : M unit :=
  busy <- gets isConnecting ;;
  if busy then
    upd (logLine (lit "Connection already in progress..."))
  else
    connectAttempt e.

(* ================================================================= *)
(** ** Transcript patterns *)

Module Pat.

Import Re.

(** [/^\s*[0-9A-Fa-f]{2,4}:\s+(?:[0-9A-Fa-f]{2}\s+){8,}/] *)
Definition hexRow : re :=
  seq [Star space; between 2 4 hex; text ":"; plus space;
       atLeast 8 (Cat (rep 2 hex) (plus space))].

(** [/>\s*sm\s+[ab]\s+\d+/] *)
Definition muxCommand : re :=
  seq [text ">"; Star space; text "sm"; plus space; oneOf "ab"; plus space;
       plus digit].

(** [/MUX [AB], Channel \d+/] *)
Definition muxChannel : re :=
  seq [text "MUX "; oneOf "AB"; text ", Channel "; plus digit].

(** [/Selected MUX [AB], Channel \d+/] *)
Definition muxSelected : re :=
  seq [text "Selected MUX "; oneOf "AB"; text ", Channel "; plus digit].

(** [/>\s*hd\s+(16|64|128)/] *)
Definition hexDumpCommand : re :=
  seq [text ">"; Star space; text "hd"; plus space;
       Alt (text "16") (Alt (text "64") (text "128"))].

End Pat.

(** [line.match(/^\s*[0-9A-Fa-f]{2,4}:\s+(?:[0-9A-Fa-f]{2}\s+){8,}/)] *)
Definition isHexRow (line : str) : bool := Re.testAtStart Pat.hexRow line.

(** [LOG_LINES.filter(line => line.match(hexRow)).length] *)
Definition countHexRows (log : list str) : nat :=
  length (filter isHexRow log).

(* ================================================================= *)
(** ** Scan Orchestrator *)

Inductive Mux : Type := MuxA | MuxB.

Definition muxLower (m : Mux) : str :=
  match m with MuxA => lit "a" | MuxB => lit "b" end.

(** [mux.toUpperCase()] *)
Definition muxUpper (m : Mux) : str :=
  match m with MuxA => lit "A" | MuxB => lit "B" end.

(** The world around the scan of one channel. *)
Record ChannelEnv : Type := mkChannelEnv {
  select_send : SendEnv;           (* sendCommand('sm <mux> <ch>') *)
  select_wait : list Tick;         (* waitForPrompt(2000) *)
  read_send : SendEnv;             (* sendCommand('er 0 64') *)
  read_wait : list Tick;           (* waitForEEPROMReadComplete(6000) *)
  rx_buffered : list ReadResult;   (* during the 300 ms wait *)
  dump_send : SendEnv;             (* first sendCommand('hd 0 16') *)
  dump_wait : list Tick;           (* waitForHexDumpComplete(6000) *)
  rx_retry : list ReadResult;      (* during the 300 ms wait before the retry *)
  retry_send : SendEnv;            (* second sendCommand('hd 0 16') *)
  retry_wait : list Tick;          (* waitForHexDumpComplete(6000) *)
  rx_settle : list ReadResult      (* during the 750 ms wait *)
}.

Definition hexDumpCmd : str := lit "hd 0 16".

(** One dump: [await sendCommand('hd 0 16'); await waitForHexDumpComplete(6000)]. *)
Definition dumpAttempt (snd : SendEnv) (ticks : list Tick) : M unit :=
  _ <- sendCommand hexDumpCmd snd ;;
  waitForHexDumpComplete 6000 ticks.

(** The second dump, taken when the first one added no hex row. *)
Definition retryDump (e : ChannelEnv) : M unit :=
  upd (logLine (lit "First attempt failed, retrying...")) ;;
  sleep 300 (rx_retry e) ;;
  dumpAttempt (retry_send e) (retry_wait e).

(** The hex-dump stage of a channel: the first attempt and the retry
    decision. *)
Definition hexDumpStage (e : ChannelEnv) : M unit :=
  hexLinesBefore <- gets (fun s => countHexRows (LOG_LINES s)) ;;
  dumpAttempt (dump_send e) (dump_wait e) ;;
  hexLinesAfter <- gets (fun s => countHexRows (LOG_LINES s)) ;;
  if hexLinesAfter =? hexLinesBefore then retryDump e else ret tt.

(** The number of hex-dump commands among the events. *)
Definition isDumpCommand (ev : Event) : bool :=
  match ev with
  | EvSendCommand c => str_eqb c hexDumpCmd
  | _ => false
  end.

Definition dumpCommands (evs : list Event) : nat :=
  length (filter isDumpCommand evs).

(** The body of the inner loop of [readBoardConfiguration]. *)
Definition scanChannel (mux : Mux) (channel : nat) (e : ChannelEnv) : M unit :=
  upd (logLine ([LF] ++ lit "--- MUX " ++ muxUpper mux ++ lit ", Channel "
                ++ ofNat channel ++ lit " ---")) ;;
  let selectCmd := lit "sm " ++ muxLower mux ++ lit " " ++ ofNat channel in
  sent <- sendCommand selectCmd (select_send e) ;;
  if negb sent then ret tt
  else
    waitForPrompt 2000 (select_wait e) ;;
    recentLog <- gets (fun s =>
                   toLowerCase (join (lit " ") (lastN 3 (LOG_LINES s)))) ;;
    if includes recentLog (lit "error") || includes recentLog (lit "fail") then
      upd (logLine (lit "Skipping channel " ++ ofNat channel
                    ++ lit " - MUX selection failed"))
    else
      upd (logLine (lit "Reading EEPROM data into buffer...")) ;;
      _ <- sendCommand (lit "er 0 64") (read_send e) ;;
      waitForEEPROMReadComplete 6000 (read_wait e) ;;
      sleep 300 (rx_buffered e) ;;
      hexDumpStage e ;;
      sleep 750 (rx_settle e).

Definition muxChannels : list Mux := [MuxA; MuxB].
Definition channelRange : list nat := List.seq 0 16.

(** The two nested loops over every channel coordinate. *)
Definition scanSweep (env : Mux -> nat -> ChannelEnv) : M unit :=
  forEach muxChannels (fun mux =>
    upd (logLine ([LF] ++ lit "=== Scanning MUX " ++ muxUpper mux
                  ++ lit " ===")) ;;
    forEach channelRange (fun channel =>
      scanChannel mux channel (env mux channel))).

(* ================================================================= *)
(** ** Diagnostic Analyzer *)

(** The counters of [analyzeScanFailure]. *)
Record Tally : Type := mkTally {
  totalMuxCommands : nat;
  successfulMuxCommands : nat;
  totalHexDumps : nat;
  successfulHexDumps : nat;
  hexDataFound : nat;
  failLines : nat;
  currentHexDumpHasData : bool
}.

Definition tally0 : Tally := mkTally 0 0 0 0 0 0 false.

Definition isMuxCommand (line : str) : bool := Re.test Pat.muxCommand line.

Definition isMuxSuccess (line : str) : bool :=
  Re.test Pat.muxChannel line || Re.test Pat.muxSelected line.

Definition isHexDumpCommand (line : str) : bool :=
  Re.test Pat.hexDumpCommand line.

(** [line.trim() === 'fail'] *)
Definition isFailLine (line : str) : bool := str_eqb (trim line) (lit "fail").

(** One iteration of the counting loop, statement by statement. *)
Definition tallyLine (t : Tally) (line : str) : Tally :=
  let t1 :=
    if isMuxCommand line then
      mkTally (S (totalMuxCommands t)) (successfulMuxCommands t)
        (totalHexDumps t) (successfulHexDumps t) (hexDataFound t)
        (failLines t) (currentHexDumpHasData t)
    else t in
  let t2 :=
    if isMuxSuccess line then
      mkTally (totalMuxCommands t1) (S (successfulMuxCommands t1))
        (totalHexDumps t1) (successfulHexDumps t1) (hexDataFound t1)
        (failLines t1) (currentHexDumpHasData t1)
    else t1 in
  let t3 :=
    if isHexDumpCommand line then
      let succ :=
        if (0 <? totalHexDumps t2) && currentHexDumpHasData t2
        then S (successfulHexDumps t2) else successfulHexDumps t2 in
      mkTally (totalMuxCommands t2) (successfulMuxCommands t2)
        (S (totalHexDumps t2)) succ (hexDataFound t2) (failLines t2) false
    else t2 in
  let t4 :=
    if isFailLine line then
      mkTally (totalMuxCommands t3) (successfulMuxCommands t3)
        (totalHexDumps t3) (successfulHexDumps t3) (hexDataFound t3)
        (S (failLines t3)) (currentHexDumpHasData t3)
    else t3 in
  if isHexRow line then
    mkTally (totalMuxCommands t4) (successfulMuxCommands t4)
      (totalHexDumps t4) (successfulHexDumps t4) (S (hexDataFound t4))
      (failLines t4) true
  else t4.

(** [if (totalHexDumps > 0 && currentHexDumpHasData) successfulHexDumps++] *)
Definition finalizeTally (t : Tally) : Tally :=
  if (0 <? totalHexDumps t) && currentHexDumpHasData t then
    mkTally (totalMuxCommands t) (successfulMuxCommands t) (totalHexDumps t)
      (S (successfulHexDumps t)) (hexDataFound t) (failLines t)
      (currentHexDumpHasData t)
  else t.

(** The counters after the loop over the whole transcript. *)
Definition tally (log : list str) : Tally :=
  finalizeTally (fold_left tallyLine log tally0).

(** The branch of the diagnosis that is taken. *)
Inductive Diagnosis : Type :=
| NoDeviceResponse          (* No EEPROMs are responding to read commands *)
| NoHardwareDetected        (* No hardware communication detected *)
| PartialOrIntermittent.    (* Mixed communication results *)

Definition classify (t : Tally) : Diagnosis :=
  if (0 <? successfulMuxCommands t) && (successfulHexDumps t =? 0) then
    NoDeviceResponse
  else if totalMuxCommands t =? 0 then NoHardwareDetected
  else PartialOrIntermittent.

(** The text logged by each branch. *)
Definition adviceLines (d : Diagnosis) : list str :=
  match d with
  | NoDeviceResponse =>
      [lit "❌ ISSUE: No EEPROMs are responding to read commands";
       [];
       lit "Possible causes:";
       lit "  1. No EEPROMs are physically connected to any MUX channels";
       lit "  2. EEPROMs are connected but not properly wired (VCC, GND, SDA, SCL)";
       lit "  3. EEPROMs are faulty or damaged";
       lit "  4. Wrong EEPROM type (expecting 11AA010 or compatible)";
       lit "  5. I2C address conflicts or wiring issues";
       [];
       lit "Next Steps:";
       lit "  • Check physical EEPROM connections on your Cell Board";
       lit "  • Verify EEPROM power (3.3V) and I2C wiring";
       lit "  • Test with a known-good EEPROM programmed with component data";
       lit "  • Use an I2C scanner to verify EEPROM addresses"]
  | NoHardwareDetected =>
      [lit "❌ ISSUE: No hardware communication detected";
       [];
       lit "Possible causes:";
       lit "  • Serial port not connected properly";
       lit "  • Wrong baud rate or communication settings";
       lit "  • Hardware not powered on"]
  | PartialOrIntermittent =>
      [lit "⚠️  PARTIAL ISSUE: Mixed communication results";
       [];
       lit "Some commands work but data reading is inconsistent.";
       lit "This suggests intermittent connection or hardware issues."]
  end.

Definition diagnosticHeader : str := [LF] ++ lit "=== DIAGNOSTIC ANALYSIS ===".

(** [analyzeScanFailure()]; the value returned is the branch taken. *)
Definition analyzeScanFailure : M Diagnosis :=
  upd (logLine diagnosticHeader) ;;
  log <- gets LOG_LINES ;;
  let t := tally log in
  upd (logLine (lit "Hardware Communication Status:")) ;;
  upd (logLine (lit "  • MUX Commands: " ++ ofNat (successfulMuxCommands t)
                ++ lit "/" ++ ofNat (totalMuxCommands t) ++ lit " successful")) ;;
  upd (logLine (lit "  • Hex Dump Commands: " ++ ofNat (successfulHexDumps t)
                ++ lit "/" ++ ofNat (totalHexDumps t) ++ lit " successful")) ;;
  upd (logLine (lit "  • Hex Data Lines Found: " ++ ofNat (hexDataFound t))) ;;
  upd (logLine ([LF] ++ lit "Diagnosis:")) ;;
  let d := classify t in
  forEach (adviceLines d) (fun l => upd (logLine l)) ;;
  ret d.

(** *** The counts in terms of the transcript *)

(** The number of lines recognised as select acknowledgements. *)
Definition selectAcks (log : list str) : nat :=
  length (filter isMuxSuccess log).

(** The number of lines recognised as echoed select commands. *)
Definition selectCommands (log : list str) : nat :=
  length (filter isMuxCommand log).

(** A hex row occurs before the next dump command. *)
Fixpoint rowBeforeNextDump (log : list str) : bool :=
  match log with
  | [] => false
  | line :: rest =>
      if isHexDumpCommand line then false
      else isHexRow line || rowBeforeNextDump rest
  end.

(** The number of dump commands that produced at least one hex-row
    line: a hex row follows the command before the next dump command
    (a line that is both a dump command and a hex row counts for
    itself). *)
Fixpoint dumpSuccesses (log : list str) : nat :=
  match log with
  | [] => 0
  | line :: rest =>
      (if isHexDumpCommand line && (isHexRow line || rowBeforeNextDump rest)
       then 1 else 0) + dumpSuccesses rest
  end.

(* ================================================================= *)
(** ** Reasoning principles for the effect monad *)

(** [m] keeps the state property [I], whether it returns or throws. *)
Definition preserves {A} (I : State -> Prop) (m : M A) : Prop :=
  forall s, I s -> I (snd (m s)).

(** [m] never throws. *)
Definition total {A} (m : M A) : Prop :=
  forall s, exists a, fst (m s) = Ok a.




(** [s'] differs from [s] at most by lines appended to the transcript
    and by the residual buffer: the footprint of the read loop. *)
Definition received (s s' : State) : Prop :=
  exists lines buf,
    s' = set_lineBuffer buf (set_LOG_LINES (LOG_LINES s ++ lines) s).

(** From [s] to [s'] the transcript grew by [lines] and the trace by
    [evs]. *)
Definition advanced (s s' : State) (lines : list str) (evs : list Event)
  : Prop :=
  LOG_LINES s' = LOG_LINES s ++ lines /\ trace s' = trace s ++ evs.

(** [m] issues at most [n] hex-dump commands. *)
Definition dumpsAtMost {A} (n : nat) (m : M A) : Prop :=
  forall s, exists evs,
    trace (snd (m s)) = trace s ++ evs /\ dumpCommands evs <= n.

(* ================================================================= *)
(** ** Further vocabulary for the transport layer *)

(** The guard of [sendCommand]: a port and a writer are at hand and no
    connect is in flight. *)
Definition ready (s : State) : bool :=
  truthy (port s) && truthy (writer s) && negb (isConnecting s).

Definition resolves (o : Outcome) : bool :=
  match o with Resolves => true | Rejects _ => false end.

(** [m] only appends to the transcript. *)
Definition appendsOnly {A} (m : M A) : Prop :=
  forall s, exists lines, LOG_LINES (snd (m s)) = LOG_LINES s ++ lines.

Definition isSetSignals (ev : Event) : bool :=
  match ev with EvSetSignals _ _ => true | _ => false end.

Definition isWrite (ev : Event) : bool :=
  match ev with EvWrite _ => true | _ => false end.

(** The commands handed to [sendCommand], in order. *)
Fixpoint commandsSent (evs : list Event) : list str :=
  match evs with
  | [] => []
  | EvSendCommand c :: rest => c :: commandsSent rest
  | _ :: rest => commandsSent rest
  end.

(** [`sm ${mux} ${channel}`] *)
Definition selectCommand (mux : Mux) (channel : nat) : str :=
  lit "sm " ++ muxLower mux ++ lit " " ++ ofNat channel.

Definition isSelectCommand (c : str) : bool := startsWith c (lit "sm ").

(** The handles and the busy flag, which the read loop and the logging
    leave alone. *)
Definition handles (s : State)
  : option PortId * option PortId * option PortId * bool :=
  (port s, reader s, writer s, isConnecting s).

(** [m] leaves the handles and the busy flag as they are. *)
Definition keepsHandles {A} (m : M A) : Prop :=
  forall h, preserves (fun s => handles s = h) m.

(** The events of a connect that succeeds on port [p]. *)
Definition connectEvents (p : PortId) : list Event :=
  [EvPortOpen p; EvDelay 2000; EvPipeReadable p; EvPipeWritable p;
   EvStartReadLoop; EvWrite [LF; LF]; EvDelay 500;
   EvWrite (lit "help" ++ [CR; LF]); EvDelay 800;
   EvWrite (lit "ver" ++ [CR; LF]); EvDelay 800].

(** The hint that the [catch] block of [connectToPort] adds for the
    error [message]. *)
Definition openHints (message : str) : list str :=
  if includes message (lit "Failed to open serial port") then
    [lit "💡 Try: 1) Check if another program is using the port 2) Unplug and reconnect the Arduino 3) Select a different port"]
  else if includes message (lit "not found") then
    [lit "💡 Port not found. Try refreshing ports or reconnecting the Arduino."]
  else [].

(** [m] never throws, and the commands it hands to [sendCommand] form
    one of the sequences in [allowed]. *)
Definition sends {A} (allowed : list (list str)) (m : M A) : Prop :=
  forall s, exists a t evs,
    m s = (Ok a, t) /\
    trace t = trace s ++ evs /\
    In (commandsSent evs) allowed.

(** All ways of following a sequence of [xs] by one of [ys]. *)
Definition followedBy (xs ys : list (list str)) : list (list str) :=
  flat_map (fun x => List.map (app x) ys) xs.

(** The channel coordinates in the order of the sweep. *)
Definition sweepOrder : list (Mux * nat) :=
  flat_map (fun mux => List.map (pair mux) channelRange) muxChannels.

(** The command sequences of one channel scan. *)
Definition channelProtocol (mux : Mux) (channel : nat) : list (list str) :=
  [[selectCommand mux channel];
   [selectCommand mux channel; lit "er 0 64"; hexDumpCmd];
   [selectCommand mux channel; lit "er 0 64"; hexDumpCmd; hexDumpCmd]].

(** [m] never throws, and the select commands it issues are exactly
    [cs], in that order. *)
Definition selects {A} (cs : list str) (m : M A) : Prop :=
  forall s, exists a t evs,
    m s = (Ok a, t) /\
    trace t = trace s ++ evs /\
    filter isSelectCommand (commandsSent evs) = cs.

(* ================================================================= *)
(** ** Stability wait *)

(** The polls of [checkForStability].  Poll number [j] (from 0) fires
    when its timer ends, [100 + 50 * j + tick_lag] ms after the start;
    before it the read loop has consumed [tick_rx].  [lastLineCount]
    and [stableCount] are the two local variables of
    [waitForCompleteResponse]. *)
Fixpoint checkForStability (timeoutMs : N) (j : N) (fuel : nat)
  (lastLineCount stableCount : nat) (ticks : list Tick) : M unit :=
  match fuel with
  | O => ret tt
  | S fuel' =>
      let t := hd idleTick ticks in
      (* when the elapsed time exceeds the timeout, resolve; otherwise
         setTimeout(checkForStability, 50) *)
      let next (lastLineCount stableCount : nat) : M unit :=
        if (timeoutMs <? 100 + 50 * j + tick_lag t)%N then ret tt
        else
          upd (record (EvDelay 50)) ;;
          checkForStability timeoutMs (j + 1) fuel' lastLineCount stableCount
            (tl ticks) in
      upd (readLoop (tick_rx t)) ;;
      currentLineCount <- gets (fun s => length (LOG_LINES s)) ;;
      if currentLineCount =? lastLineCount then
        if 4 <=? S stableCount then ret tt
        else next lastLineCount (S stableCount)
      else next currentLineCount 0
  end.

(** [waitForCompleteResponse(timeoutMs)].  Poll number [timeoutMs/50]
    is past the timeout whatever the lags are, so [timeoutMs/50 + 1]
    polls always suffice. *)
Definition waitForCompleteResponse (timeoutMs : N) (ticks : list Tick)
  : M unit :=
  lastLineCount <- gets (fun s => length (LOG_LINES s)) ;;
  upd (record (EvDelay 100)) ;;
  checkForStability timeoutMs 0 (S (N.to_nat (timeoutMs / 50)))
    lastLineCount 0 ticks.

Definition waitForResponse (timeoutMs : N) (ticks : list Tick) : M unit :=
  waitForCompleteResponse timeoutMs ticks.

Definition isTimer (ev : Event) : bool :=
  match ev with EvDelay _ => true | _ => false end.

(* ================================================================= *)
(** ** Board read and diagnostic mode *)

(** The world around one command of a fixed sequence: its
    [sendCommand], and what arrives during the wait that follows. *)
Record CommandEnv : Type := mkCommandEnv {
  cmd_send : SendEnv;
  cmd_rx : list ReadResult
}.

Definition idleCommand : CommandEnv := mkCommandEnv (mkSendEnv Resolves []) [].

Definition initCommands : list str :=
  [lit "i2c begin"; lit "i2c speed 400000"; lit "eeprom init";
   lit "eeprom addr 0x50"; lit "scan"].

(** The loop of [initializeI2CBus] over the commands still to send;
    commands without an entry in [envs] meet an idle world. *)
Fixpoint sendInitCommands (cmds : list str) (envs : list CommandEnv)
  : M unit :=
  match cmds with
  | [] => ret tt
  | cmd :: rest =>
      let e := hd idleCommand envs in
      upd (logLine (lit "Sending: " ++ cmd)) ;;
      tryCatch
        (_ <- sendCommand cmd (cmd_send e) ;;
         sleep 300 (cmd_rx e))
        (fun message =>
           upd (logLine (lit "Command " ++ dquote ++ cmd ++ dquote
                         ++ lit " failed: " ++ message))) ;;
      sendInitCommands rest (tl envs)
  end.

Record I2CEnv : Type := mkI2CEnv {
  init_envs : list CommandEnv;
  rx_init_done : list ReadResult      (* during the final 1000 ms wait *)
}.

Definition initializeI2CBus (e : I2CEnv) : M unit :=
  upd (logLine (lit "Initializing I2C bus and EEPROM systems...")) ;;
  sendInitCommands initCommands (init_envs e) ;;
  sleep 1000 (rx_init_done e) ;;
  upd (logLine (lit "I2C initialization sequence completed")).

Record BoardEnv : Type := mkBoardEnv {
  i2c : I2CEnv;
  channels : Mux -> nat -> ChannelEnv
}.

(** [readBoardConfiguration()].  [parseLogWithBackend] hands the
    transcript to the backend and to the page; it is taken as a
    parameter, an arbitrary computation. *)
Definition readBoardConfiguration (e : BoardEnv) (parseLogWithBackend : M unit)
  : M unit :=
  p <- gets port ;;
  if negb (truthy p) then ret tt           (* alert(...); return *)
  else
    upd (set_LOG_LINES []) ;;
    upd (logLine (lit "Starting board configuration read...")) ;;
    upd (logLine (lit "This will scan all MUX channels for component data.")) ;;
    tryCatch
      (initializeI2CBus (i2c e) ;;
       upd (logLine (lit "I2C bus initialized successfully - ready for fast EEPROM reads")) ;;
       scanSweep (channels e) ;;
       upd (logLine ([LF] ++ lit "=== Board scan completed ===")) ;;
       parseLogWithBackend)
      (fun message =>
         upd (logLine (lit "Error reading board: " ++ message))).

(** The world around one channel of the diagnostic mode. *)
Record TestEnv : Type := mkTestEnv {
  test_select : SendEnv;  test_select_wait : list Tick;
  test_read : SendEnv;    test_read_wait : list Tick;
  test_dump : SendEnv;    test_dump_wait : list Tick;
  rx_between : list ReadResult          (* during the 500 ms wait *)
}.

Definition testChannels : list (Mux * nat) :=
  [(MuxA, 0); (MuxA, 1); (MuxA, 2); (MuxA, 3);
   (MuxB, 0); (MuxB, 1); (MuxB, 2); (MuxB, 3)].

(** The body of the loop of [diagnoseBoardEEPROMs]. *)
Definition testChannel (mux : Mux) (channel : nat) (e : TestEnv) : M unit :=
  upd (logLine ([LF] ++ lit "--- Testing MUX " ++ muxUpper mux
                ++ lit ", Channel " ++ ofNat channel ++ lit " ---")) ;;
  let selectCmd := lit "sm " ++ muxLower mux ++ lit " " ++ ofNat channel in
  sent <- sendCommand selectCmd (test_select e) ;;
  if negb sent then ret tt
  else
    waitForResponse 1000 (test_select_wait e) ;;
    upd (logLine (lit "Reading EEPROM data into buffer...")) ;;
    _ <- sendCommand (lit "er 0 128") (test_read e) ;;
    waitForResponse 1000 (test_read_wait e) ;;
    upd (logLine (lit "Hex dumping EEPROM content...")) ;;
    _ <- sendCommand (lit "hd 0 128") (test_dump e) ;;
    waitForResponse 2000 (test_dump_wait e) ;;
    sleep 500 (rx_between e).

(** [diagnoseBoardEEPROMs()], with [parseLogWithBackend] a parameter
    as above. *)
Definition diagnoseBoardEEPROMs (env : Mux -> nat -> TestEnv)
  (parseLogWithBackend : M unit) : M unit :=
  p <- gets port ;;
  if negb (truthy p) then ret tt           (* alert(...); return *)
  else
    upd (set_LOG_LINES []) ;;
    upd (logLine (lit "=== EEPROM Diagnostic Mode ===")) ;;
    upd (logLine (lit "Checking each MUX channel for any stored data...")) ;;
    upd (logLine (lit "This will show you exactly what is stored on your EEPROMs.")) ;;
    tryCatch
      (forEach testChannels
         (fun mc => testChannel (fst mc) (snd mc) (env (fst mc) (snd mc))) ;;
       upd (logLine ([LF] ++ lit "=== Diagnostic scan completed ===")) ;;
       upd (logLine (lit "Analyzing raw data for any readable content...")) ;;
       parseLogWithBackend)
      (fun message =>
         upd (logLine (lit "Error during diagnostic: " ++ message))).

(** The command sequences of one channel of the diagnostic mode. *)
Definition testProtocol (mux : Mux) (channel : nat) : list (list str) :=
  [[selectCommand mux channel];
   [selectCommand mux channel; lit "er 0 128"; lit "hd 0 128"]].

(* ================================================================= *)
(** ** Line splitting: properties *)

Arguments split_lines : simpl never.
Arguments strip_terminators : simpl never.

Section SplitLines.

Lemma cons_head_nonempty c ps : cons_head c ps <> [].
Proof. destruct ps; discriminate. Qed.

Lemma split_lines_nonempty s : split_lines s <> [].
Proof.
  functional induction (split_lines s); try discriminate.
  apply cons_head_nonempty.
Qed.

Lemma split_lines_nolf s : hasLF s = false -> split_lines s = [s].
Proof.
  functional induction (split_lines s); simpl; intros H; auto.
  - rewrite e0 in H. discriminate.
  - rewrite e0 in H. simpl in H.
    apply andb_prop in e2 as [_ E]. rewrite E in H. discriminate.
  - rewrite e0 in H. simpl in H. simpl in IHl. rewrite (IHl H). reflexivity.
Qed.

Lemma split_lines_haslf s :
  hasLF s = true -> exists p q r, split_lines s = p :: q :: r.
Proof.
  functional induction (split_lines s); simpl; intros H.
  - discriminate.
  - destruct (split_lines t) as [|q r] eqn:E.
    + now apply split_lines_nonempty in E.
    + eauto.
  - rewrite e0 in H. discriminate.
  - destruct (split_lines t') as [|q r] eqn:E.
    + now apply split_lines_nonempty in E.
    + eauto.
  - rewrite e0 in H. simpl in H. destruct (IHl H) as (p & q & r & E).
    rewrite E. simpl. eauto.
Qed.

Lemma split_lines_pieces s :
  Forall (fun p => hasLF p = false) (split_lines s).
Proof.
  functional induction (split_lines s); auto.
  - repeat constructor. simpl. now rewrite e0.
  - destruct (split_lines (d :: t')) as [|p ps]; simpl.
    + repeat constructor. simpl. now rewrite e0.
    + inversion IHl; subst. constructor; auto. simpl. now rewrite e0.
Qed.

Lemma split_lines_last_nolf s : hasLF (last (split_lines s) []) = false.
Proof.
  pose proof (split_lines_pieces s) as H.
  pose proof (split_lines_nonempty s) as N.
  rewrite Forall_forall in H. apply H.
  destruct (exists_last N) as (l & a & ->). rewrite last_last.
  apply in_or_app. right. now left.
Qed.

(** Splitting a concatenation: the complete pieces of the first part
    stand, and its unfinished piece is continued by the second part. *)
Lemma split_lines_app a b :
  split_lines (a ++ b) =
  removelast (split_lines a) ++ split_lines (last (split_lines a) [] ++ b).
Proof.
  functional induction (split_lines a).
  - reflexivity.
  - change ((c :: t) ++ b) with (c :: (t ++ b)).
    rewrite (split_lines_equation (c :: t ++ b)), e0, IHl.
    destruct (split_lines t) as [|q r] eqn:E;
      [now apply split_lines_nonempty in E|].
    reflexivity.
  - reflexivity.
  - change ((c :: d :: t') ++ b) with (c :: d :: (t' ++ b)).
    rewrite (split_lines_equation (c :: d :: t' ++ b)), e0, e2, IHl.
    destruct (split_lines t') as [|q r] eqn:E;
      [now apply split_lines_nonempty in E|].
    reflexivity.
  - destruct (hasLF (d :: t')) eqn:HL.
    + destruct (split_lines_haslf _ HL) as (p & q & r & E).
      change ((c :: d :: t') ++ b) with (c :: d :: (t' ++ b)).
      rewrite (split_lines_equation (c :: d :: t' ++ b)), e0, e2.
      change (d :: t' ++ b) with ((d :: t') ++ b). rewrite IHl, E.
      reflexivity.
    + assert (HL' : hasLF (c :: d :: t') = false)
        by (simpl; rewrite e0; exact HL).
      rewrite (split_lines_nolf _ HL). simpl cons_head. reflexivity.
Qed.

Lemma concat_cons_head c ps : concat (cons_head c ps) = c :: concat ps.
Proof. destruct ps; reflexivity. Qed.

Lemma concat_removelast_last (ps : list str) :
  ps <> [] -> concat (removelast ps) ++ last ps [] = concat ps.
Proof.
  intros H. rewrite (app_removelast_last [] H) at 3.
  rewrite concat_app. simpl. now rewrite app_nil_r.
Qed.

Lemma concat_split_lines s : concat (split_lines s) = strip_terminators s.
Proof.
  functional induction (split_lines s);
    rewrite strip_terminators_equation; try rewrite e0; try rewrite e2; auto.
  rewrite concat_cons_head, IHl. reflexivity.
Qed.

Lemma hasLF_app a b : hasLF (a ++ b) = hasLF a || hasLF b.
Proof. apply existsb_app. Qed.

Lemma hasLF_rev a : hasLF (rev a) = hasLF a.
Proof.
  induction a; simpl; auto. rewrite hasLF_app, IHa. simpl.
  rewrite orb_false_r. apply orb_comm.
Qed.

Lemma hasLF_trimStart s : hasLF s = false -> hasLF (trimStart s) = false.
Proof.
  induction s; simpl; auto. intros H. apply orb_false_elim in H as [H1 H2].
  destruct (isWhiteSpace a); auto. simpl. now rewrite H1, H2.
Qed.

Lemma hasLF_trim s : hasLF s = false -> hasLF (trim s) = false.
Proof.
  intros H. unfold trim, trimEnd. rewrite hasLF_rev.
  apply hasLF_trimStart. rewrite hasLF_rev. now apply hasLF_trimStart.
Qed.

End SplitLines.

(* ================================================================= *)
(** ** Stream Pipeline: properties *)

Section Pipeline.

Lemma emitted_app a b : emitted (a ++ b) = emitted a ++ emitted b.
Proof. unfold emitted. now rewrite map_app, filter_app. Qed.

Lemma emitted_nolf pieces :
  Forall (fun p => hasLF p = false) pieces ->
  Forall (fun l => hasLF l = false) (emitted pieces).
Proof.
  unfold emitted. induction 1; simpl; auto.
  destruct (negb (str_eqb (trim x) [])); auto.
  constructor; auto. now apply hasLF_trim.
Qed.

Lemma emitted_nonblank pieces : Forall (fun l => l <> []) (emitted pieces).
Proof.
  unfold emitted. induction pieces as [|p ps IH]; simpl; auto.
  destruct (trim p) eqn:E; simpl; auto.
  constructor; auto. discriminate.
Qed.

Lemma fold_emitLine pieces s :
  fold_left emitLine pieces s =
  set_LOG_LINES (LOG_LINES s ++ emitted pieces) s.
Proof.
  revert s. induction pieces as [|p ps IH]; intros s.
  - destruct s. unfold set_LOG_LINES. simpl. now rewrite app_nil_r.
  - simpl. rewrite IH. unfold emitLine, emitted. simpl.
    destruct (trim p) eqn:E; simpl; [reflexivity|].
    destruct s. unfold set_LOG_LINES, logLine. simpl.
    now rewrite <- app_assoc.
Qed.

(** What one chunk does to the state. *)
Lemma readLoop_value_eq value s :
  value <> [] ->
  readLoop_value value s =
  let pieces := split_lines (lineBuffer s ++ value) in
  set_lineBuffer (last pieces [])
    (set_LOG_LINES (LOG_LINES s ++ emitted (removelast pieces)) s).
Proof.
  intros H. destruct value as [|c v]; [contradiction|].
  unfold readLoop_value. rewrite fold_emitLine. destruct s. reflexivity.
Qed.

(** The buffer never holds a line feed once a chunk has gone through. *)
Lemma readLoop_value_buffer value s :
  hasLF (lineBuffer s) = false ->
  hasLF (lineBuffer (readLoop_value value s)) = false.
Proof.
  intros H. destruct value as [|c v]; [exact H|].
  rewrite readLoop_value_eq by discriminate. simpl.
  apply split_lines_last_nolf.
Qed.

Lemma readLoop_buffer rx s :
  hasLF (lineBuffer s) = false -> hasLF (lineBuffer (readLoop rx s)) = false.
Proof.
  revert s. induction rx as [|r rx IH]; intros s H; simpl.
  - now destruct (truthy (port s) && truthy (reader s)).
  - destruct (truthy (port s) && truthy (reader s)); [|exact H].
    destruct r; [|exact H|exact H].
    now apply IH, readLoop_value_buffer.
Qed.

Lemma readLoop_value_port value s :
  port (readLoop_value value s) = port s /\
  reader (readLoop_value value s) = reader s.
Proof.
  destruct value as [|c v]; [now split|].
  rewrite readLoop_value_eq by discriminate. now split.
Qed.

Lemma readLoop_chunks chunks s :
  truthy (port s) = true -> truthy (reader s) = true ->
  readLoop (List.map Chunk chunks) s = feed chunks s.
Proof.
  revert s. induction chunks as [|v vs IH]; intros s Hp Hr; simpl.
  - now rewrite Hp, Hr.
  - rewrite Hp, Hr. simpl. destruct (readLoop_value_port v s) as [E1 E2].
    apply IH; congruence.
Qed.

Lemma last_app_nonempty {A} (x y : list A) d :
  y <> [] -> last (x ++ y) d = last y d.
Proof.
  intros H. destruct (exists_last H) as (l & a & ->).
  now rewrite app_assoc, !last_last.
Qed.

(** Chunked and whole-input processing agree. *)
Lemma feed_batch chunks s :
  hasLF (lineBuffer s) = false ->
  feed chunks s =
  let pieces := split_lines (lineBuffer s ++ concat chunks) in
  set_lineBuffer (last pieces [])
    (set_LOG_LINES (LOG_LINES s ++ emitted (removelast pieces)) s).
Proof.
  revert s. induction chunks as [|v vs IH]; intros s H.
  - simpl. rewrite app_nil_r, (split_lines_nolf _ H). simpl.
    destruct s. unfold set_lineBuffer, set_LOG_LINES. simpl.
    now rewrite app_nil_r.
  - destruct (list_eq_dec N.eq_dec v []) as [->|NE].
    + simpl. apply (IH s H).
    + change (feed (v :: vs) s) with (feed vs (readLoop_value v s)).
      rewrite IH by now apply readLoop_value_buffer.
      rewrite (readLoop_value_eq v s NE).
      cbv zeta. change (concat (v :: vs)) with (v ++ concat vs).
      rewrite (app_assoc (lineBuffer s)).
      rewrite (split_lines_app (lineBuffer s ++ v)).
      set (P1 := split_lines (lineBuffer s ++ v)).
      simpl lineBuffer. simpl LOG_LINES.
      set (P2 := split_lines (last P1 [] ++ concat vs)).
      assert (N2 : P2 <> []) by apply split_lines_nonempty.
      rewrite removelast_app by exact N2.
      rewrite last_app_nonempty by exact N2. rewrite emitted_app.
      destruct s. unfold set_lineBuffer, set_LOG_LINES. simpl.
      now rewrite app_assoc.
Qed.

End Pipeline.

(* ================================================================= *)
(** ** Stream Pipeline: the stated properties *)

(** C1, as stated, fails: the loop trims every complete line and drops
    the blank ones, so the emitted lines and the residual fragment do
    not add up to the input, with or without its terminators.  Here the
    only chunk is [" a\n"]; the loop emits ["a"]. *)
Lemma C1_counterexample :
  let chunks := [lit " a" ++ [LF]] in
  let s' := readLoop (List.map Chunk chunks) (connected 0) in
  LOG_LINES s' = [lit "a"] /\
  lineBuffer s' = [] /\
  concat (LOG_LINES s') ++ lineBuffer s' <> strip_terminators (concat chunks) /\
  concat (LOG_LINES s') ++ lineBuffer s' <> concat chunks.
Proof.
  vm_compute. repeat split; discriminate.
Qed.

(** C1, amended.  For every sequence of chunks fed to a running read
    loop whose buffer holds no line feed, let the complete lines be all
    pieces but the last of the whole input (buffer followed by the
    chunks) split at [\r?\n].  The loop emits, in order, the trimmed
    complete lines that are not blank, and keeps the last piece as the
    residual fragment; the complete lines before trimming followed by
    the residual fragment are the input with its terminators removed;
    and no emitted line contains a line feed. *)
Theorem C1_pipeline_reassembly (chunks : list str) (s : State) :
  truthy (port s) = true ->
  truthy (reader s) = true ->
  hasLF (lineBuffer s) = false ->
  let s' := readLoop (List.map Chunk chunks) s in
  let input := lineBuffer s ++ concat chunks in
  let complete := removelast (split_lines input) in
  LOG_LINES s' = LOG_LINES s ++ emitted complete /\
  lineBuffer s' = last (split_lines input) [] /\
  concat complete ++ lineBuffer s' = strip_terminators input /\
  Forall (fun l => hasLF l = false) (emitted complete).
Proof.
  intros Hp Hr Hb s' input complete.
  assert (E : s' = set_lineBuffer (last (split_lines input) [])
                     (set_LOG_LINES (LOG_LINES s ++ emitted complete) s)).
  { unfold s'. rewrite readLoop_chunks by assumption.
    now rewrite feed_batch by assumption. }
  rewrite E. simpl. repeat split.
  - rewrite <- concat_split_lines.
    apply concat_removelast_last, split_lines_nonempty.
  - apply emitted_nolf. pose proof (split_lines_pieces input) as F.
    rewrite (app_removelast_last [] (split_lines_nonempty input)) in F.
    now apply Forall_app in F.
Qed.

Lemma C1_pipeline_reassembly_witness :
  let chunks := [lit " a" ++ [CR; LF] ++ lit "b"; lit "c" ++ [LF; LF]; lit "d "] in
  let s := connected 0 in
  truthy (port s) = true /\
  truthy (reader s) = true /\
  hasLF (lineBuffer s) = false /\
  LOG_LINES (readLoop (List.map Chunk chunks) s) = [lit "a"; lit "bc"] /\
  lineBuffer (readLoop (List.map Chunk chunks) s) = lit "d ".
Proof.
  intros chunks s.
  destruct (C1_pipeline_reassembly chunks s eq_refl eq_refl eq_refl)
    as (HL & HB & _ & _).
  split; [reflexivity|]. split; [reflexivity|]. split; [reflexivity|].
  split; [rewrite HL | rewrite HB]; reflexivity.
Defined.

(** C2.  Whatever the residual buffer holds (it never holds a line
    feed: see [readLoop_value_buffer]), a chunk without a line
    terminator emits no line and leaves the buffer equal to the old one
    with the chunk appended; nothing else changes. *)
Theorem C2_chunk_without_terminator (chunk : str) (s : State) :
  hasLF (lineBuffer s) = false ->
  hasLF chunk = false ->
  readLoop_value chunk s = set_lineBuffer (lineBuffer s ++ chunk) s /\
  LOG_LINES (readLoop_value chunk s) = LOG_LINES s /\
  lineBuffer (readLoop_value chunk s) = lineBuffer s ++ chunk.
Proof.
  intros Hb Hc.
  assert (E : readLoop_value chunk s = set_lineBuffer (lineBuffer s ++ chunk) s).
  { destruct (list_eq_dec N.eq_dec chunk []) as [->|NE].
    - rewrite app_nil_r. now destruct s.
    - rewrite (readLoop_value_eq chunk s NE). cbv zeta.
      rewrite split_lines_nolf by (now rewrite hasLF_app, Hb, Hc).
      destruct s. unfold set_lineBuffer, set_LOG_LINES. simpl.
      now rewrite app_nil_r. }
  rewrite E. now repeat split.
Qed.

Lemma C2_chunk_without_terminator_witness :
  hasLF (lineBuffer (set_lineBuffer (lit "ab" ++ [CR]) (connected 0))) = false /\
  hasLF (lit "cd") = false /\
  readLoop_value (lit "cd") (set_lineBuffer (lit "ab" ++ [CR]) (connected 0)) =
  set_lineBuffer (lit "ab" ++ [CR] ++ lit "cd") (connected 0).
Proof.
  split; [reflexivity|]. split; [reflexivity|].
  exact (proj1 (C2_chunk_without_terminator (lit "cd")
                  (set_lineBuffer (lit "ab" ++ [CR]) (connected 0))
                  eq_refl eq_refl)).
Defined.

(** C8, as stated, fails: the last chunk ends with a terminator, so
    ["gh"] is a complete line.  It is emitted and the buffer is left
    empty. *)
Lemma C8_counterexample :
  let s' := readLoop (List.map Chunk exampleStream) (connected 0) in
  LOG_LINES s' = [lit "abcd"; lit "ef"; lit "gh"] /\
  lineBuffer s' = [] /\
  ~ (LOG_LINES s' = [lit "abcd"; lit "ef"] /\ lineBuffer s' = lit "gh").
Proof.
  vm_compute. repeat split. intros [H _]. discriminate.
Qed.

(** C8, amended.  Starting with an empty residual buffer, the stream
    ["ab"; "cd\n"; "ef\ngh\n"] makes the loop emit "abcd", "ef", "gh" in
    that order and leaves the buffer empty.  Without the last
    terminator (["ab"; "cd\n"; "ef\ngh"]) it emits "abcd", "ef" and
    holds "gh" as the residual fragment. *)
Theorem C8_example_stream (s : State) :
  truthy (port s) = true ->
  truthy (reader s) = true ->
  lineBuffer s = [] ->
  (LOG_LINES (readLoop (List.map Chunk exampleStream) s) =
     LOG_LINES s ++ [lit "abcd"; lit "ef"; lit "gh"] /\
   lineBuffer (readLoop (List.map Chunk exampleStream) s) = []) /\
  (LOG_LINES (readLoop (List.map Chunk exampleStreamOpen) s) =
     LOG_LINES s ++ [lit "abcd"; lit "ef"] /\
   lineBuffer (readLoop (List.map Chunk exampleStreamOpen) s) = lit "gh").
Proof.
  intros Hp Hr Hb.
  assert (Hn : hasLF (lineBuffer s) = false) by now rewrite Hb.
  rewrite !readLoop_chunks by assumption.
  rewrite !feed_batch by assumption.
  rewrite Hb. now repeat split.
Qed.

Lemma C8_example_stream_witness :
  truthy (port (connected 0)) = true /\
  truthy (reader (connected 0)) = true /\
  lineBuffer (connected 0) = [] /\
  LOG_LINES (readLoop (List.map Chunk exampleStream) (connected 0)) =
    [lit "abcd"; lit "ef"; lit "gh"] /\
  lineBuffer (readLoop (List.map Chunk exampleStreamOpen) (connected 0)) =
    lit "gh".
Proof.
  destruct (C8_example_stream (connected 0) eq_refl eq_refl eq_refl)
    as ((H1 & _) & (_ & H2)).
  split; [reflexivity|]. split; [reflexivity|]. split; [reflexivity|].
  split; assumption.
Defined.

(* ================================================================= *)
(** ** Effect monad: composition rules *)

Section MonadRules.

Context {A B : Type}.

Lemma preserves_ret I (a : A) : preserves I (ret a).
Proof. intros s H. exact H. Qed.

Lemma preserves_throw I e : preserves I (@throw A e).
Proof. intros s H. exact H. Qed.

Lemma preserves_gets I (f : State -> A) : preserves I (gets f).
Proof. intros s H. exact H. Qed.

Lemma preserves_bind I (m : M A) (k : A -> M B) :
  preserves I m -> (forall a, preserves I (k a)) -> preserves I (bind m k).
Proof.
  intros Hm Hk s H. unfold bind. specialize (Hm s H).
  destruct (m s) as [[a|e] s1]; simpl in *; auto. now apply Hk.
Qed.

Lemma preserves_tryCatch I (body : M A) h :
  preserves I body -> (forall e, preserves I (h e)) ->
  preserves I (tryCatch body h).
Proof.
  intros Hm Hk s H. unfold tryCatch. specialize (Hm s H).
  destruct (body s) as [[a|e] s1]; simpl in *; auto. now apply Hk.
Qed.

Lemma total_ret (a : A) : total (ret a).
Proof. intros s. now exists a. Qed.


Lemma total_bind (m : M A) (k : A -> M B) :
  total m -> (forall a, total (k a)) -> total (bind m k).
Proof.
  intros Hm Hk s. unfold bind. destruct (Hm s) as [a Ha].
  destruct (m s) as [r s1]. simpl in Ha. subst r. apply Hk.
Qed.

Lemma total_tryCatch (body : M A) h :
  (forall e, total (h e)) -> total (tryCatch body h).
Proof.
  intros Hk s. unfold tryCatch.
  destruct (body s) as [[a|e] s1]; [now exists a | apply Hk].
Qed.



End MonadRules.


Lemma preserves_when I b m : preserves I m -> preserves I (when b m).
Proof. destruct b; [auto | intros _; apply preserves_ret]. Qed.

Lemma preserves_forEach {X} I (xs : list X) body :
  (forall x, preserves I (body x)) -> preserves I (forEach xs body).
Proof.
  intros H. induction xs; simpl.
  - apply preserves_ret.
  - apply preserves_bind; auto.
Qed.

Lemma total_upd f : total (upd f).
Proof. intros s. now exists tt. Qed.


Lemma total_forEach {X} (xs : list X) body :
  (forall x, total (body x)) -> total (forEach xs body).
Proof.
  intros H. induction xs; simpl.
  - apply total_ret.
  - apply total_bind; auto.
Qed.




(** *** The footprint of the read loop *)

Lemma received_refl s : received s s.
Proof.
  exists [], (lineBuffer s). destruct s.
  unfold set_lineBuffer, set_LOG_LINES. simpl. now rewrite app_nil_r.
Qed.

Lemma received_trans s1 s2 s3 :
  received s1 s2 -> received s2 s3 -> received s1 s3.
Proof.
  intros (l1 & b1 & ->) (l2 & b2 & ->). exists (l1 ++ l2), b2.
  destruct s1. unfold set_lineBuffer, set_LOG_LINES. simpl.
  now rewrite app_assoc.
Qed.

Lemma received_logLine m s : received s (logLine m s).
Proof.
  exists [m], (lineBuffer s). now destruct s.
Qed.

Lemma received_value v s : received s (readLoop_value v s).
Proof.
  destruct (list_eq_dec N.eq_dec v []) as [->|NE].
  - apply received_refl.
  - rewrite (readLoop_value_eq v s NE). cbv zeta. eexists _, _. reflexivity.
Qed.

Lemma received_readLoop rx s : received s (readLoop rx s).
Proof.
  revert s. induction rx as [|r rx IH]; intros s; simpl.
  - destruct (truthy (port s) && truthy (reader s)); apply received_refl.
  - destruct (truthy (port s) && truthy (reader s)); [|apply received_refl].
    destruct r.
    + eapply received_trans; [apply received_value | apply IH].
    + apply received_refl.
    + apply received_logLine.
Qed.


Lemma readLoop_trace rx s : trace (readLoop rx s) = trace s.
Proof. now destruct (received_readLoop rx s) as (l & b & ->). Qed.

Lemma readLoop_LOG_LINES rx s :
  exists lines, LOG_LINES (readLoop rx s) = LOG_LINES s ++ lines.
Proof.
  destruct (received_readLoop rx s) as (l & b & ->). now exists l.
Qed.

Lemma skipn_app_length {X} (l r : list X) : skipn (length l) (l ++ r) = r.
Proof. induction l; simpl; auto. Qed.

Arguments lit : simpl never.

(* ================================================================= *)
(** ** Connection Manager: properties *)

Section BusyFlag.

Variable b : bool.







End BusyFlag.







(** When every step succeeds on a fully set-up session, the teardown
    runs in the documented order. *)
Lemma disconnectPort_clean p :
  events (disconnectPort (mkDisconnectEnv Resolves Resolves Resolves))
    (connected p) =
  [EvReaderCancel; EvAwaitReadableClosed; EvWriterClose;
   EvAwaitWritableClosed; EvPortClose p].
Proof. reflexivity. Qed.

(** C3, as stated, fails: the teardown steps share one [try] block, so
    a rejected [reader.cancel()] skips the closing of the writer and of
    the port. *)
Lemma C3_counterexample :
  let e := mkDisconnectEnv (Rejects (lit "cancel failed")) Resolves Resolves in
  let evs := events (disconnectPort e) (connected 0) in
  evs = [EvReaderCancel] /\
  ~ (In EvWriterClose evs /\ In (EvPortClose 0) evs).
Proof.
  split; [reflexivity|]. intros [H _]. vm_compute in H.
  destruct H as [H|[]]. discriminate.
Qed.

(** C3, amended.  In every execution of [disconnectPort] with a port
    and a reader in which cancelling the read raises an error, the
    error is caught, not propagated: it is logged, the port handle is
    cleared and the busy flag reset.  The cancel is the only external
    action performed; the writer and the port are not closed and
    [reader], [writer] and the stream variables keep their values. *)
Theorem C3_cancel_failure_skips_teardown
  (e : DisconnectEnv) (s : State) (message : str) :
  truthy (port s) = true ->
  truthy (reader s) = true ->
  cancel_res e = Rejects message ->
  disconnectPort e s =
    (Ok tt,
     set_isConnecting false
       (set_port None
          (logLine (lit "Error disconnecting: " ++ message)
             (record EvReaderCancel s)))) /\
  events (disconnectPort e) s = [EvReaderCancel].
Proof.
  intros Hp Hr Hc.
  assert (E : disconnectPort e s =
    (Ok tt,
     set_isConnecting false
       (set_port None
          (logLine (lit "Error disconnecting: " ++ message)
             (record EvReaderCancel s))))).
  { unfold disconnectPort, bind, tryCatch, gets, when, ext, upd.
    rewrite Hp, Hr, Hc. reflexivity. }
  split; [exact E|].
  unfold events, run. rewrite E. simpl. apply skipn_app_length.
Qed.

Lemma C3_cancel_failure_skips_teardown_witness :
  let e := mkDisconnectEnv (Rejects (lit "cancel failed")) Resolves Resolves in
  truthy (port (connected 0)) = true /\
  truthy (reader (connected 0)) = true /\
  cancel_res e = Rejects (lit "cancel failed") /\
  events (disconnectPort e) (connected 0) = [EvReaderCancel].
Proof.
  intros e.
  split; [reflexivity|]. split; [reflexivity|]. split; [reflexivity|].
  exact (proj2 (C3_cancel_failure_skips_teardown e (connected 0)
                  (lit "cancel failed") eq_refl eq_refl eq_refl)).
Defined.



(* ================================================================= *)
(** ** Command/Response Coordinator: properties *)

(** C10.  While the busy flag is set, [sendCommand] returns false after
    logging the not-connected error, and writes nothing, even when a
    port and a writer are at hand. *)
Theorem C10_send_refused_while_connecting
  (command : str) (e : SendEnv) (s : State) :
  isConnecting s = true ->
  sendCommand command e s =
    (Ok false,
     logLine (lit "Error: Not connected to any port.")
       (record (EvSendCommand command) s)) /\
  events (sendCommand command e) s = [EvSendCommand command] /\
  (forall data, ~ In (EvWrite data) (events (sendCommand command e) s)).
Proof.
  intros H.
  assert (E : sendCommand command e s =
    (Ok false,
     logLine (lit "Error: Not connected to any port.")
       (record (EvSendCommand command) s))).
  { unfold sendCommand, bind, gets, upd, ret. simpl. rewrite H.
    now rewrite !orb_true_r. }
  assert (V : events (sendCommand command e) s = [EvSendCommand command]).
  { unfold events, run. rewrite E. simpl. apply skipn_app_length. }
  split; [exact E|]. split; [exact V|].
  intros data. rewrite V. intros [D|[]]. discriminate.
Qed.

Lemma C10_send_refused_while_connecting_witness :
  let s := set_isConnecting true (connected 0) in
  isConnecting s = true /\
  truthy (port s) = true /\
  truthy (writer s) = true /\
  result (sendCommand (lit "sm a 0") (mkSendEnv Resolves [])) s = Ok false.
Proof.
  intros s.
  split; [reflexivity|]. split; [reflexivity|]. split; [reflexivity|].
  unfold result.
  now rewrite (proj1 (C10_send_refused_while_connecting (lit "sm a 0")
                        (mkSendEnv Resolves []) s eq_refl)).
Defined.

(** *** Prompt wait *)

Lemma lastN_app_window {X} n (older recent : list X) :
  length recent = n -> lastN n (older ++ recent) = recent.
Proof.
  intros H. unfold lastN. rewrite length_app, H.
  replace (length older + n - n) with (length older) by lia.
  apply skipn_app_length.
Qed.

Lemma lastN_length {X} n (xs : list X) : length (lastN n xs) <= n.
Proof. unfold lastN. rewrite length_skipn. lia. Qed.

Lemma pollPrompt_resolved timeoutMs fuel :
  forall k ticks s,
    (timeoutMs < 100 * (k + N.of_nat fuel - 1))%N ->
    fuel <> 0 ->
    exists s', pollPrompt timeoutMs k fuel ticks s = (Ok tt, s') /\
               Resolved timeoutMs k ticks s s'.
Proof.
  induction fuel as [|fuel IH]; intros k ticks s Hlate Hfuel; [easy|].
  cbn [pollPrompt]. unfold bind, upd, gets. cbn [fst snd].
  set (s1 := readLoop (tick_rx (hd idleTick ticks)) s).
  destruct (promptCheck (LOG_LINES s1)
              (100 * k + tick_lag (hd idleTick ticks)) timeoutMs) eqn:C.
  - exists s1. split; [reflexivity | now constructor].
  - destruct fuel as [|fuel'].
    + exfalso. unfold promptCheck in C. apply orb_false_elim in C as [_ C].
      apply N.ltb_ge in C. lia.
    + destruct (IH (k + 1)%N (tl ticks) s1) as (s' & E & R); [lia | easy |].
      exists s'. split; [exact E|]. now apply resolved_later.
Qed.

(** The wait always ends, at the first firing whose check succeeds. *)
Lemma waitForPrompt_resolved timeoutMs ticks s :
  exists s', waitForPrompt timeoutMs ticks s = (Ok tt, s') /\
             Resolved timeoutMs 1 ticks s s'.
Proof.
  apply pollPrompt_resolved; [|easy].
  pose proof (N.mod_lt timeoutMs 100 ltac:(easy)) as M.
  pose proof (N.div_mod timeoutMs 100 ltac:(easy)) as D.
  rewrite Nat2N.inj_succ, N2Nat.id. lia.
Qed.

(** C9.  At each poll the detector looks at the last ten transcript
    lines only: it declares completion exactly when one of them ends in
    '>' once trimmed or contains '$', or when the time elapsed exceeds
    the timeout.  Lines older than that window have no influence on the
    decision, and the wait resolves at the first poll that declares
    completion. *)
Theorem C9_prompt_window (log : list str) (elapsed timeoutMs : N) :
  (promptCheck log elapsed timeoutMs = true <->
   (exists line, In line (lastN 10 log) /\
                 (endsWith (trim line) (lit ">") = true \/
                  includes line (lit "$") = true)) \/
   (timeoutMs < elapsed)%N) /\
  length (lastN 10 log) <= 10 /\
  (forall older recent,
     length recent = 10 ->
     lastN 10 (older ++ recent) = recent /\
     promptCheck (older ++ recent) elapsed timeoutMs =
     promptCheck recent elapsed timeoutMs) /\
  (forall ticks s,
     exists s', waitForPrompt timeoutMs ticks s = (Ok tt, s') /\
                Resolved timeoutMs 1 ticks s s').
Proof.
  split; [|split; [|split]].
  - unfold promptCheck, hasPrompt. rewrite orb_true_iff, existsb_exists.
    rewrite N.ltb_lt. unfold isPromptLine.
    split; (intros [(line & Hin & Hp)|Ht]; [left|now right]);
      exists line; split; auto;
      [now apply orb_true_iff in Hp | now apply orb_true_iff].
  - apply lastN_length.
  - intros older recent H. split.
    + now apply lastN_app_window.
    + unfold promptCheck, hasPrompt.
      rewrite (lastN_app_window 10 older recent H).
      rewrite <- (app_nil_l recent) at 2.
      now rewrite (lastN_app_window 10 [] recent H).
  - intros. apply waitForPrompt_resolved.
Qed.

(** A prompt eleven lines back does not end the wait; the same prompt
    inside the window does. *)
Lemma C9_prompt_window_witness :
  let recent := repeat (lit "data") 10 in
  length recent = 10 /\
  promptCheck ([lit "eeprom>"] ++ recent) 100 6000 = false /\
  promptCheck (recent ++ [lit "eeprom> "]) 100 6000 = true /\
  promptCheck ([lit "eeprom>"] ++ recent) 6100 6000 = true.
Proof.
  intros recent.
  split; [reflexivity|]. split; [|split; reflexivity].
  destruct (C9_prompt_window recent 100 6000) as (_ & _ & W & _).
  destruct (W [lit "eeprom>"] recent eq_refl) as [_ E].
  rewrite E. reflexivity.
Defined.

(* ================================================================= *)
(** ** Scan Orchestrator: properties *)

Lemma dumpCommands_app a b :
  dumpCommands (a ++ b) = dumpCommands a + dumpCommands b.
Proof. unfold dumpCommands. now rewrite filter_app, length_app. Qed.

Lemma countHexRows_app a b :
  countHexRows (a ++ b) = countHexRows a + countHexRows b.
Proof. unfold countHexRows. now rewrite filter_app, length_app. Qed.

Lemma advanced_refl s : advanced s s [] [].
Proof. split; now rewrite app_nil_r. Qed.

Lemma advanced_trans s1 s2 s3 l1 l2 t1 t2 :
  advanced s1 s2 l1 t1 -> advanced s2 s3 l2 t2 ->
  advanced s1 s3 (l1 ++ l2) (t1 ++ t2).
Proof.
  intros [A1 B1] [A2 B2]. split.
  - now rewrite A2, A1, app_assoc.
  - now rewrite B2, B1, app_assoc.
Qed.

Lemma advanced_received s s' :
  received s s' -> exists l, advanced s s' l [].
Proof.
  intros (l & b & ->). exists l. split; simpl; [reflexivity|].
  now rewrite app_nil_r.
Qed.

Arguments advanced_trans {s1 s2 s3 l1 l2 t1 t2}.
Arguments advanced_received {s s'}.

Lemma advanced_logLine m s : advanced s (logLine m s) [m] [].
Proof. split; simpl; [reflexivity | now rewrite app_nil_r]. Qed.

Lemma advanced_record ev s : advanced s (record ev s) [] [ev].
Proof. split; simpl; [now rewrite app_nil_r | reflexivity]. Qed.

Lemma advanced_run {A} (m : M A) s l t :
  advanced s (run m s) l t -> logged m s = l /\ events m s = t.
Proof.
  intros [HL HT]. unfold logged, events. rewrite HL, HT.
  now rewrite !skipn_app_length.
Qed.

(** [sendCommand] never throws; it issues its command and at most a
    write and the flush delay. *)
Lemma sendCommand_advanced c e s :
  exists b s' l t,
    sendCommand c e s = (Ok b, s') /\
    advanced s s' l (EvSendCommand c :: t) /\
    dumpCommands t = 0.
Proof.
  unfold sendCommand, writer_write, sleep, ext, tryCatch, bind, gets, upd, ret.
  cbn [fst snd port writer isConnecting record].
  destruct (port s) as [p|] eqn:Hp; cbn [truthy negb orb].
  2:{ exists false; eexists _, [_], []. split; [reflexivity|].
      split; [|reflexivity]. now split. }
  destruct (writer s) as [w|] eqn:Hw; cbn [truthy negb orb].
  2:{ exists false; eexists _, [_], []. split; [reflexivity|].
      split; [|reflexivity]. now split. }
  destruct (isConnecting s) eqn:Hc.
  { exists false; eexists _, [_], []. split; [reflexivity|].
    split; [|reflexivity]. now split. }
  cbn [writer record]. try rewrite Hw.
  destruct (write_res e) as [|m].
  - set (s1 := record (EvDelay 100)
                 (record (EvWrite (c ++ [CR; LF]))
                    (record (EvSendCommand c) s))).
    destruct (readLoop_LOG_LINES (rx_flush e) s1) as [l Hl].
    exists true;
      eexists _, (l ++ [_]), [EvWrite (c ++ [CR; LF]); EvDelay 100].
    split; [reflexivity|].
    split; [|reflexivity]. split; simpl.
    + rewrite Hl. unfold s1. simpl. now rewrite app_assoc.
    + rewrite readLoop_trace. unfold s1. simpl.
      now rewrite <- !app_assoc.
  - exists false; eexists _, [_], [EvWrite (c ++ [CR; LF])].
    split; [reflexivity|].
    split; [|reflexivity]. split; simpl; [reflexivity|].
    now rewrite <- !app_assoc.
Qed.

Lemma pollPrompt_received timeoutMs fuel :
  forall k ticks s,
    exists s', pollPrompt timeoutMs k fuel ticks s = (Ok tt, s') /\
               received s s'.
Proof.
  induction fuel as [|fuel IH]; intros k ticks s.
  - exists s. split; [reflexivity | apply received_refl].
  - cbn [pollPrompt]. unfold bind, upd, gets. cbn [fst snd].
    set (s1 := readLoop (tick_rx (hd idleTick ticks)) s).
    assert (R1 : received s s1) by apply received_readLoop.
    destruct (promptCheck _ _ _).
    + exists s1. now split.
    + destruct (IH (k + 1)%N (tl ticks) s1) as (s' & E & R).
      exists s'. split; [exact E|]. eapply received_trans; eassumption.
Qed.

Lemma waitForPrompt_received timeoutMs ticks s :
  exists s', waitForPrompt timeoutMs ticks s = (Ok tt, s') /\ received s s'.
Proof. apply pollPrompt_received. Qed.

(** One dump attempt: exactly one hex-dump command, transcript only
    appended to. *)
Lemma dumpAttempt_advanced snd ticks s :
  exists s' l t,
    dumpAttempt snd ticks s = (Ok tt, s') /\
    advanced s s' l (EvSendCommand hexDumpCmd :: t) /\
    dumpCommands t = 0.
Proof.
  unfold dumpAttempt, waitForHexDumpComplete, bind.
  destruct (sendCommand_advanced hexDumpCmd snd s)
    as (b & s1 & l1 & t & E1 & A1 & D).
  rewrite E1.
  destruct (waitForPrompt_received 6000 ticks s1) as (s2 & E2 & R2).
  rewrite E2. destruct (advanced_received R2) as [l2 A2].
  exists s2, (l1 ++ l2), t. split; [reflexivity|]. split; [|exact D].
  pose proof (advanced_trans A1 A2) as A. now rewrite app_nil_r in A.
Qed.

Lemma retryDump_advanced e s :
  exists s' l t,
    retryDump e s = (Ok tt, s') /\
    advanced s s' l (EvDelay 300 :: EvSendCommand hexDumpCmd :: t) /\
    dumpCommands t = 0.
Proof.
  unfold retryDump, sleep, bind, upd. cbn [fst snd].
  set (s0 := record (EvDelay 300)
               (logLine (lit "First attempt failed, retrying...") s)).
  assert (A0 : advanced s s0 [lit "First attempt failed, retrying..."]
                 [EvDelay 300]).
  { apply (advanced_trans (advanced_logLine _ s) (advanced_record _ _)). }
  destruct (advanced_received (received_readLoop (rx_retry e) s0)) as [l1 A1].
  destruct (dumpAttempt_advanced (retry_send e) (retry_wait e)
              (readLoop (rx_retry e) s0)) as (s' & l2 & t & E & A2 & D).
  rewrite E. eexists s', _, t. split; [reflexivity|]. split; [|exact D].
  pose proof (advanced_trans (advanced_trans A0 A1) A2) as A.
  simpl in A. exact A.
Qed.

(** *** Counting the hex-dump commands of a computation *)

Lemma dumpsAtMost_weaken {A} n n' (m : M A) :
  n <= n' -> dumpsAtMost n m -> dumpsAtMost n' m.
Proof.
  intros Hn Hm s. destruct (Hm s) as (t & E & D). exists t. split; [exact E | lia].
Qed.

Lemma dumpsAtMost_bind {A B} n1 n2 (m : M A) (k : A -> M B) :
  dumpsAtMost n1 m -> (forall a, dumpsAtMost n2 (k a)) ->
  dumpsAtMost (n1 + n2) (bind m k).
Proof.
  intros Hm Hk s. destruct (Hm s) as (t1 & E1 & D1). unfold bind.
  destruct (m s) as [[a|e] s1]; simpl in *.
  - destruct (Hk a s1) as (t2 & E2 & D2). exists (t1 ++ t2).
    rewrite E2, E1, app_assoc, dumpCommands_app. split; [reflexivity | lia].
  - exists t1. split; [exact E1 | lia].
Qed.

Lemma dumpsAtMost_after {A B} n (m : M A) (k : A -> M B) :
  dumpsAtMost 0 m -> (forall a, dumpsAtMost n (k a)) ->
  dumpsAtMost n (bind m k).
Proof. intros Hm Hk. apply (dumpsAtMost_bind 0 n m k Hm Hk). Qed.

Lemma dumpsAtMost_ret {A} (a : A) : dumpsAtMost 0 (ret a).
Proof. intros s. exists []. simpl. now rewrite app_nil_r. Qed.

Lemma dumpsAtMost_gets {A} (f : State -> A) : dumpsAtMost 0 (gets f).
Proof. intros s. exists []. simpl. now rewrite app_nil_r. Qed.

Lemma dumpsAtMost_logLine m : dumpsAtMost 0 (upd (logLine m)).
Proof. intros s. exists []. simpl. now rewrite app_nil_r. Qed.

Lemma dumpsAtMost_sleep ms rx : dumpsAtMost 0 (sleep ms rx).
Proof.
  intros s. exists [EvDelay ms]. unfold sleep, upd. simpl.
  now rewrite readLoop_trace.
Qed.

Lemma dumpsAtMost_waitForPrompt timeoutMs ticks :
  dumpsAtMost 0 (waitForPrompt timeoutMs ticks).
Proof.
  intros s. destruct (waitForPrompt_received timeoutMs ticks s) as (s' & E & R).
  rewrite E. destruct R as (l & b & ->). exists []. simpl.
  now rewrite app_nil_r.
Qed.

Lemma dumpsAtMost_sendCommand c e :
  dumpsAtMost (if str_eqb c hexDumpCmd then 1 else 0) (sendCommand c e).
Proof.
  intros s. destruct (sendCommand_advanced c e s) as (b & s' & l & t & E & A & D).
  rewrite E. exists (EvSendCommand c :: t). split; [apply A|].
  change (EvSendCommand c :: t) with ([EvSendCommand c] ++ t).
  rewrite dumpCommands_app, D. unfold dumpCommands. simpl.
  destruct (str_eqb c hexDumpCmd); simpl; lia.
Qed.

Lemma dumpsAtMost_dumpAttempt snd ticks :
  dumpsAtMost 1 (dumpAttempt snd ticks).
Proof.
  unfold dumpAttempt, waitForHexDumpComplete.
  apply (dumpsAtMost_bind 1 0); [apply (dumpsAtMost_sendCommand hexDumpCmd)|].
  intros _. apply dumpsAtMost_waitForPrompt.
Qed.

Lemma dumpsAtMost_hexDumpStage e : dumpsAtMost 2 (hexDumpStage e).
Proof.
  unfold hexDumpStage.
  apply dumpsAtMost_after; [apply dumpsAtMost_gets|]. intros before.
  apply (dumpsAtMost_bind 1 1); [apply dumpsAtMost_dumpAttempt|]. intros _.
  apply dumpsAtMost_after; [apply dumpsAtMost_gets|]. intros after.
  destruct (after =? before).
  - unfold retryDump.
    apply dumpsAtMost_after; [apply dumpsAtMost_logLine|]. intros _.
    apply dumpsAtMost_after; [apply dumpsAtMost_sleep|]. intros _.
    apply dumpsAtMost_dumpAttempt.
  - apply (dumpsAtMost_weaken 0); [lia | apply dumpsAtMost_ret].
Qed.

(** A channel is dumped at most twice: once, and one retry. *)
Lemma dumpsAtMost_scanChannel mux channel e :
  dumpsAtMost 2 (scanChannel mux channel e).
Proof.
  unfold scanChannel, waitForEEPROMReadComplete.
  apply dumpsAtMost_after; [apply dumpsAtMost_logLine|]. intros _.
  apply dumpsAtMost_after.
  { apply (dumpsAtMost_sendCommand
             (lit "sm " ++ muxLower mux ++ lit " " ++ ofNat channel)). }
  intros sent. destruct (negb sent).
  { apply (dumpsAtMost_weaken 0); [lia | apply dumpsAtMost_ret]. }
  apply dumpsAtMost_after; [apply dumpsAtMost_waitForPrompt|]. intros _.
  apply dumpsAtMost_after; [apply dumpsAtMost_gets|]. intros recentLog.
  destruct (_ || _).
  { apply (dumpsAtMost_weaken 0); [lia | apply dumpsAtMost_logLine]. }
  apply dumpsAtMost_after; [apply dumpsAtMost_logLine|]. intros _.
  apply dumpsAtMost_after.
  { apply (dumpsAtMost_sendCommand (lit "er 0 64")). }
  intros _.
  apply dumpsAtMost_after; [apply dumpsAtMost_waitForPrompt|]. intros _.
  apply dumpsAtMost_after; [apply dumpsAtMost_sleep|]. intros _.
  rewrite <- (Nat.add_0_r 2).
  apply dumpsAtMost_bind; [apply dumpsAtMost_hexDumpStage|]. intros _.
  apply dumpsAtMost_sleep.
Qed.

Lemma dumpsAtMost_forEach {X} n (xs : list X) body :
  (forall x, dumpsAtMost n (body x)) ->
  dumpsAtMost (n * length xs) (forEach xs body).
Proof.
  intros H. induction xs as [|x xs IH]; simpl.
  - rewrite Nat.mul_0_r. apply dumpsAtMost_ret.
  - replace (n * S (length xs)) with (n + n * length xs) by lia.
    apply dumpsAtMost_bind; [apply H | intros _; exact IH].
Qed.

(** The whole sweep visits 32 channels and issues at most two dump
    commands on each. *)
Lemma dumpsAtMost_scanSweep env : dumpsAtMost 64 (scanSweep env).
Proof.
  unfold scanSweep.
  apply (dumpsAtMost_forEach 32 muxChannels). intros mux.
  apply dumpsAtMost_after; [apply dumpsAtMost_logLine|]. intros _.
  apply (dumpsAtMost_forEach 2 channelRange). intros channel.
  apply dumpsAtMost_scanChannel.
Qed.

Lemma dumpsAtMost_events {A} n (m : M A) s :
  dumpsAtMost n m -> dumpCommands (events m s) <= n.
Proof.
  intros H. destruct (H s) as (t & E & D). unfold events, run.
  now rewrite E, skipn_app_length.
Qed.

(** The hex-dump stage, case by case. *)
Lemma hexDumpStage_eq e s :
  hexDumpStage e s =
  let s1 := run (dumpAttempt (dump_send e) (dump_wait e)) s in
  if countHexRows (logged (dumpAttempt (dump_send e) (dump_wait e)) s) =? 0
  then retryDump e s1 else (Ok tt, s1).
Proof.
  destruct (dumpAttempt_advanced (dump_send e) (dump_wait e) s)
    as (s1 & l & t & E & A & D).
  unfold hexDumpStage, bind, gets, logged, run. rewrite E. cbn [fst snd].
  destruct A as [AL AT]. rewrite AL, skipn_app_length, countHexRows_app.
  destruct (countHexRows l) as [|n] eqn:C.
  - rewrite Nat.add_0_r, Nat.eqb_refl. reflexivity.
  - replace (countHexRows (LOG_LINES s) + S n =? countHexRows (LOG_LINES s))
      with false by (symmetry; apply Nat.eqb_neq; lia).
    reflexivity.
Qed.

(** C5.  In the hex-dump stage of a channel, let the new lines be the
    transcript lines added by the first attempt (the transcript is only
    appended to).  If none of them is a hex row, exactly one retry is
    issued, after the 300 ms delay: the stage issues two dump commands
    in all.  If at least one is a hex row, no retry is issued: the
    stage consists of the first attempt alone.  A channel scan never
    issues more than two dump commands, that is, never more than one
    retry. *)
Theorem C5_single_retry (e : ChannelEnv) (s : State) :
  let first := dumpAttempt (dump_send e) (dump_wait e) in
  let new := logged first s in
  let evs := events (hexDumpStage e) s in
  LOG_LINES (run first s) = LOG_LINES s ++ new /\
  (countHexRows new = 0 ->
   dumpCommands evs = 2 /\
   exists t1 t2,
     evs = EvSendCommand hexDumpCmd :: t1
           ++ EvDelay 300 :: EvSendCommand hexDumpCmd :: t2 /\
     dumpCommands t1 = 0 /\ dumpCommands t2 = 0) /\
  (countHexRows new <> 0 ->
   dumpCommands evs = 1 /\ evs = events first s) /\
  (forall mux channel,
     dumpCommands (events (scanChannel mux channel e) s) <= 2).
Proof.
  intros first new evs.
  destruct (dumpAttempt_advanced (dump_send e) (dump_wait e) s)
    as (s1 & l & t & E & A & D).
  assert (R : run first s = s1) by (unfold run, first; now rewrite E).
  destruct (advanced_run first s l (EvSendCommand hexDumpCmd :: t))
    as [HL HE]; [now rewrite R|].
  fold new in HL.
  assert (Hone : dumpCommands (EvSendCommand hexDumpCmd :: t) = 1).
  { change (EvSendCommand hexDumpCmd :: t)
      with ([EvSendCommand hexDumpCmd] ++ t).
    now rewrite dumpCommands_app, D. }
  split; [rewrite R, HL; apply A|].
  split; [|split].
  - intros Z. unfold evs, events, run. rewrite hexDumpStage_eq. cbv zeta.
    fold first. fold new. rewrite Z, R. cbn [Nat.eqb].
    destruct (retryDump_advanced e s1) as (s2 & l2 & t2 & E2 & A2 & D2).
    rewrite E2. cbn [snd].
    destruct (advanced_trans A A2) as [_ T]. rewrite T, skipn_app_length.
    split.
    + rewrite dumpCommands_app, Hone.
      change (EvDelay 300 :: EvSendCommand hexDumpCmd :: t2)
        with ([EvDelay 300; EvSendCommand hexDumpCmd] ++ t2).
      now rewrite dumpCommands_app, D2.
    + exists t, t2. now repeat split.
  - intros NZ. unfold evs, events, run. rewrite hexDumpStage_eq. cbv zeta.
    fold first. fold new. rewrite R.
    destruct (countHexRows new) as [|n]; [contradiction|]. cbn [Nat.eqb snd].
    rewrite (proj2 A), skipn_app_length.
    split; [exact Hone | symmetry; exact HE].
  - intros mux channel. apply dumpsAtMost_events, dumpsAtMost_scanChannel.
Qed.

(** The retry of the worked example: the first dump brings no hex row
    and the retry brings three; and a first dump that brings a row is
    not retried. *)
Lemma C5_single_retry_witness :
  let row := lit "00: 70 72 6F 6D 6F 74 65 72 5F 61 00 00 00 00 00 00" ++ [CR; LF] in
  let ok := mkSendEnv Resolves [] in
  let silent := [mkTick [Chunk (lit "fail" ++ [CR; LF] ++ lit ">" ++ [LF])] 0] in
  let rows := [mkTick [Chunk (row ++ row ++ row ++ lit ">" ++ [LF])] 0] in
  let retried := mkChannelEnv ok [] ok [] [] ok silent [] ok rows [] in
  let direct := mkChannelEnv ok [] ok [] [] ok rows [] ok rows [] in
  let s := connected 0 in
  (countHexRows (logged (dumpAttempt (dump_send retried) (dump_wait retried)) s) = 0 /\
   dumpCommands (events (hexDumpStage retried) s) = 2 /\
   countHexRows (logged (hexDumpStage retried) s) = 3) /\
  (countHexRows (logged (dumpAttempt (dump_send direct) (dump_wait direct)) s) <> 0 /\
   dumpCommands (events (hexDumpStage direct) s) = 1).
Proof.
  intros row ok silent rows retried direct s. split.
  - destruct (C5_single_retry retried s) as (_ & H & _ & _).
    assert (Z : countHexRows
                  (logged (dumpAttempt (dump_send retried) (dump_wait retried)) s)
                = 0) by (vm_compute; reflexivity).
    split; [exact Z|]. split; [exact (proj1 (H Z))|].
    vm_compute. reflexivity.
  - destruct (C5_single_retry direct s) as (_ & _ & H & _).
    assert (NZ : countHexRows
                   (logged (dumpAttempt (dump_send direct) (dump_wait direct)) s)
                 <> 0) by (vm_compute; discriminate).
    split; [exact NZ | exact (proj1 (H NZ))].
Defined.

(* ================================================================= *)
(** ** Diagnostic Analyzer: properties *)

(** The patterns on typical transcript lines. *)
Example hexRow_sixteen_bytes :
  isHexRow (lit "00: 70 72 6F 6D 6F 74 65 72 5F 61 00 00 00 00 00 00") = true.
Proof. vm_compute. reflexivity. Qed.

Example hexRow_seven_bytes :
  isHexRow (lit "00: 70 72 6F 6D 6F 74 65 ") = false.
Proof. vm_compute. reflexivity. Qed.

Example select_echo_recognised : isMuxCommand (lit "> sm b 12") = true.
Proof. vm_compute. reflexivity. Qed.

(** The banner that the scan logs for each channel is itself counted
    as a select acknowledgement. *)
Example channel_banner_counts_as_ack :
  isMuxSuccess ([LF] ++ lit "--- MUX A, Channel 0 ---") = true.
Proof. vm_compute. reflexivity. Qed.

(** The echo of the dump command that the scan sends is not matched by
    the analyzer's dump-command pattern. *)
Example scan_dump_echo_unrecognised :
  isHexDumpCommand (lit "> " ++ hexDumpCmd) = false /\
  isHexDumpCommand (lit "> hd 16") = true.
Proof. vm_compute. split; reflexivity. Qed.

Lemma forEach_logLine ls s :
  forEach ls (fun l => upd (logLine l)) s =
  (Ok tt, fold_left (fun st l => logLine l st) ls s).
Proof.
  revert s. induction ls as [|l ls IH]; intros s; [reflexivity|].
  simpl. unfold bind, upd. cbn [fst snd]. apply IH.
Qed.

(** The header that the analyzer logs first is counted as nothing. *)
Lemma tallyLine_header t : tallyLine t diagnosticHeader = t.
Proof.
  unfold tallyLine.
  replace (isMuxCommand diagnosticHeader) with false by (vm_compute; reflexivity).
  replace (isMuxSuccess diagnosticHeader) with false by (vm_compute; reflexivity).
  replace (isHexDumpCommand diagnosticHeader) with false
    by (vm_compute; reflexivity).
  replace (isFailLine diagnosticHeader) with false by (vm_compute; reflexivity).
  replace (isHexRow diagnosticHeader) with false by (vm_compute; reflexivity).
  reflexivity.
Qed.

Lemma tally_header log : tally (log ++ [diagnosticHeader]) = tally log.
Proof.
  unfold tally. rewrite fold_left_app. simpl. now rewrite tallyLine_header.
Qed.

(** The branch taken depends on the transcript at the time of the call
    only. *)
Lemma analyzeScanFailure_result s :
  result analyzeScanFailure s = Ok (classify (tally (LOG_LINES s))).
Proof.
  unfold result, analyzeScanFailure, bind, upd, gets. cbn [fst snd].
  rewrite forEach_logLine. cbn [fst snd ret].
  simpl LOG_LINES. now rewrite tally_header.
Qed.

Lemma fold_tally_mux log :
  forall t,
    totalMuxCommands (fold_left tallyLine log t) =
      totalMuxCommands t + selectCommands log /\
    successfulMuxCommands (fold_left tallyLine log t) =
      successfulMuxCommands t + selectAcks log.
Proof.
  unfold selectCommands, selectAcks.
  induction log as [|l log IH]; intros t; simpl.
  - split; lia.
  - destruct (IH (tallyLine t l)) as [H1 H2]. rewrite H1, H2.
    unfold tallyLine.
    destruct (isMuxCommand l), (isMuxSuccess l), (isHexDumpCommand l),
      (isFailLine l), (isHexRow l); simpl; split; lia.
Qed.

Lemma tally_mux log :
  totalMuxCommands (tally log) = selectCommands log /\
  successfulMuxCommands (tally log) = selectAcks log.
Proof.
  destruct (fold_tally_mux log tally0) as [H1 H2]. unfold tally, finalizeTally.
  destruct (_ && _); simpl; now rewrite ?H1, ?H2.
Qed.

(** The loop's count of successful dumps, for any starting counters. *)
Lemma fold_tally_dumps log :
  forall t,
    successfulHexDumps (finalizeTally (fold_left tallyLine log t)) =
    successfulHexDumps t
    + (if (0 <? totalHexDumps t)
          && (currentHexDumpHasData t || rowBeforeNextDump log)
       then 1 else 0)
    + dumpSuccesses log.
Proof.
  induction log as [|l log IH]; intros t.
  - simpl. unfold finalizeTally. rewrite orb_false_r.
    destruct (_ && _); simpl; lia.
  - simpl fold_left. rewrite IH. unfold tallyLine.
    cbn [rowBeforeNextDump dumpSuccesses].
    destruct (isMuxCommand l), (isMuxSuccess l), (isHexDumpCommand l),
      (isFailLine l), (isHexRow l), (totalHexDumps t) as [|n],
      (currentHexDumpHasData t), (rowBeforeNextDump log); simpl; lia.
Qed.

(** The analyzer's count of successful dumps is the number of dump
    commands that produced a hex row. *)
Lemma tally_dumps log : successfulHexDumps (tally log) = dumpSuccesses log.
Proof. unfold tally. now rewrite fold_tally_dumps. Qed.

(** C6, as stated, fails: with no select acknowledgement the analyzer
    reports no hardware only when no select command was echoed either.
    Here one select command was echoed and answered by "fail": the
    diagnosis is the mixed one. *)
Lemma C6_counterexample :
  let s := set_LOG_LINES [lit "> sm a 0"; lit "fail"] (connected 0) in
  selectAcks (LOG_LINES s) = 0 /\
  result analyzeScanFailure s = Ok PartialOrIntermittent /\
  result analyzeScanFailure s <> Ok NoHardwareDetected.
Proof.
  assert (E : result analyzeScanFailure
                (set_LOG_LINES [lit "> sm a 0"; lit "fail"] (connected 0))
              = Ok PartialOrIntermittent).
  { rewrite analyzeScanFailure_result. vm_compute. reflexivity. }
  split; [vm_compute; reflexivity|]. split; [exact E|].
  rewrite E. discriminate.
Qed.

(** C6, amended.  For every transcript in which the analyzer
    recognises no select acknowledgement, the diagnosis is
    [NoHardwareDetected] when the transcript holds no echoed select
    command and [PartialOrIntermittent] when it holds one, whatever
    hex-dump lines are present. *)
Theorem C6_no_acknowledgement (s : State) :
  selectAcks (LOG_LINES s) = 0 ->
  result analyzeScanFailure s =
  Ok (if selectCommands (LOG_LINES s) =? 0
      then NoHardwareDetected else PartialOrIntermittent).
Proof.
  intros H. rewrite analyzeScanFailure_result. unfold classify.
  destruct (tally_mux (LOG_LINES s)) as [H1 H2]. now rewrite H1, H2, H.
Qed.

(** Hex rows without any select command: no hardware detected. *)
Lemma C6_no_acknowledgement_witness :
  let row := lit "00: 70 72 6F 6D 6F 74 65 72 5F 61 00 00 00 00 00 00" in
  let s := set_LOG_LINES [lit "> hd 16"; row; row] (connected 0) in
  selectAcks (LOG_LINES s) = 0 /\
  result analyzeScanFailure s = Ok NoHardwareDetected.
Proof.
  intros row s.
  assert (Z : selectAcks (LOG_LINES s) = 0) by (vm_compute; reflexivity).
  split; [exact Z|]. rewrite (C6_no_acknowledgement s Z).
  vm_compute. reflexivity.
Defined.

(** C7.  For every transcript with at least one recognised select
    acknowledgement and no dump command that produced a hex-row line,
    the diagnosis is [NoDeviceResponse]. *)
Theorem C7_no_device_response (s : State) :
  1 <= selectAcks (LOG_LINES s) ->
  dumpSuccesses (LOG_LINES s) = 0 ->
  result analyzeScanFailure s = Ok NoDeviceResponse.
Proof.
  intros Hk Hd. rewrite analyzeScanFailure_result. unfold classify.
  destruct (tally_mux (LOG_LINES s)) as [_ H2].
  rewrite H2, tally_dumps, Hd.
  destruct (selectAcks (LOG_LINES s)); [lia | reflexivity].
Qed.

Lemma C7_no_device_response_witness :
  let s := set_LOG_LINES
             [lit "> sm a 0"; lit "Selected MUX A, Channel 0";
              lit "> hd 16"; lit "fail"] (connected 0) in
  1 <= selectAcks (LOG_LINES s) /\
  dumpSuccesses (LOG_LINES s) = 0 /\
  result analyzeScanFailure s = Ok NoDeviceResponse.
Proof.
  intros s.
  assert (K : 1 <= selectAcks (LOG_LINES s)) by (vm_compute; lia).
  assert (D : dumpSuccesses (LOG_LINES s) = 0) by (vm_compute; reflexivity).
  split; [exact K|]. split; [exact D|]. exact (C7_no_device_response s K D).
Defined.

(* ================================================================= *)
(** ** Stream Pipeline: further properties *)

(** X1.  The read loop stops for good at the end of the stream and at
    a read error: what the reader would deliver afterwards is never
    looked at.  A read error adds exactly one line to the transcript.
    Without a port or a reader the loop consumes nothing. *)
Theorem readLoop_stops (chunks : list str) (rest : list ReadResult)
  (message : str) (s : State) :
  (truthy (port s) && truthy (reader s) = true ->
   readLoop (List.map Chunk chunks ++ StreamDone :: rest) s =
     readLoop (List.map Chunk chunks) s /\
   readLoop (List.map Chunk chunks ++ ReadFail message :: rest) s =
     logLine (lit "Read error: " ++ message)
       (readLoop (List.map Chunk chunks) s)) /\
  (truthy (port s) && truthy (reader s) = false ->
   readLoop (List.map Chunk chunks ++ rest) s = s).
Proof.
  split.
  - revert s. induction chunks as [|v vs IH]; intros s H; simpl.
    + rewrite H. now split.
    + rewrite H. apply IH.
      destruct (readLoop_value_port v s) as [-> ->]. exact H.
  - intros H. destruct (List.map Chunk chunks ++ rest); simpl; now rewrite H.
Qed.

Lemma readLoop_stops_witness :
  let s := connected 0 in
  truthy (port s) && truthy (reader s) = true /\
  LOG_LINES (readLoop [Chunk (lit "a" ++ [LF]); StreamDone;
                       Chunk (lit "b" ++ [LF])] s) = [lit "a"] /\
  truthy (port initial) && truthy (reader initial) = false /\
  readLoop [Chunk (lit "a" ++ [LF])] initial = initial.
Proof.
  intros s. split; [reflexivity|]. split.
  - exact (eq_trans
             (f_equal LOG_LINES
                (proj1 (proj1 (readLoop_stops [lit "a" ++ [LF]]
                                 [Chunk (lit "b" ++ [LF])] [] s) eq_refl)))
             eq_refl).
  - split; [reflexivity|].
    exact (proj2 (readLoop_stops [lit "a" ++ [LF]] [] [] initial) eq_refl).
Defined.

(** X2.  The result of the read loop does not depend on how the input
    is cut into chunks: two chunk sequences with the same concatenation
    leave the same transcript and the same residual fragment. *)
Theorem readLoop_chunking (chunks1 chunks2 : list str) (s : State) :
  truthy (port s) = true ->
  truthy (reader s) = true ->
  hasLF (lineBuffer s) = false ->
  concat chunks1 = concat chunks2 ->
  readLoop (List.map Chunk chunks1) s = readLoop (List.map Chunk chunks2) s.
Proof.
  intros Hp Hr Hb E.
  rewrite !readLoop_chunks by assumption.
  rewrite !feed_batch by assumption. now rewrite E.
Qed.

Lemma readLoop_chunking_witness :
  let row := lit "00: 70 72 6F" ++ [CR; LF] ++ lit "10: 00" in
  let s := connected 0 in
  truthy (port s) = true /\
  truthy (reader s) = true /\
  hasLF (lineBuffer s) = false /\
  concat [lit "00: 70 "; lit "72 6F" ++ [CR]; [LF] ++ lit "10: 00"] = concat [row] /\
  readLoop (List.map Chunk
              [lit "00: 70 "; lit "72 6F" ++ [CR]; [LF] ++ lit "10: 00"]) s =
  readLoop (List.map Chunk [row]) s.
Proof.
  intros row s.
  split; [reflexivity|]. split; [reflexivity|]. split; [reflexivity|].
  split; [reflexivity|].
  apply (readLoop_chunking
           [lit "00: 70 "; lit "72 6F" ++ [CR]; [LF] ++ lit "10: 00"]
           [row] s); reflexivity.
Defined.

(** *** Trimmed lines *)

Lemma trimStart_suffix s : exists w, s = w ++ trimStart s.
Proof.
  induction s as [|c t IH]; simpl.
  - now exists [].
  - destruct (isWhiteSpace c).
    + destruct IH as [w E]. exists (c :: w). simpl. now rewrite <- E.
    + now exists [].
Qed.

Lemma trimStart_head s c t : trimStart s = c :: t -> isWhiteSpace c = false.
Proof.
  induction s as [|d u IH]; simpl; [discriminate|].
  destruct (isWhiteSpace d) eqn:W; [exact IH|].
  intros E. injection E as -> _. exact W.
Qed.

Lemma trimStart_idem s : trimStart (trimStart s) = trimStart s.
Proof.
  destruct (trimStart s) as [|c t] eqn:E; [reflexivity|].
  simpl. now rewrite (trimStart_head _ _ _ E).
Qed.

Lemma trimEnd_prefix s : exists w, s = trimEnd s ++ w.
Proof.
  unfold trimEnd. destruct (trimStart_suffix (rev s)) as [w E].
  exists (rev w). rewrite <- rev_app_distr, <- E. now rewrite rev_involutive.
Qed.

Lemma trim_idem s : trim (trim s) = trim s.
Proof.
  unfold trim.
  assert (H : trimStart (trimEnd (trimStart s)) = trimEnd (trimStart s)).
  { destruct (trimEnd_prefix (trimStart s)) as [w E].
    destruct (trimEnd (trimStart s)) as [|c t] eqn:T; [reflexivity|].
    simpl in E. simpl. now rewrite (trimStart_head _ _ _ E). }
  rewrite H. unfold trimEnd. now rewrite rev_involutive, trimStart_idem.
Qed.

Lemma emitted_clean pieces :
  Forall (fun l => l <> [] /\ trim l = l) (emitted pieces).
Proof.
  unfold emitted. induction pieces as [|p ps IH]; simpl; auto.
  destruct (trim p) eqn:E; simpl; auto.
  constructor; auto. split; [discriminate|]. rewrite <- E. apply trim_idem.
Qed.

(** X3.  Every line that the read loop adds to the transcript for
    incoming chunks is non-empty and carries no leading or trailing
    white space; the lines already there are kept. *)
Theorem readLoop_lines_clean (chunks : list str) (s : State) :
  exists new,
    LOG_LINES (readLoop (List.map Chunk chunks) s) = LOG_LINES s ++ new /\
    Forall (fun l => l <> [] /\ trim l = l) new.
Proof.
  revert s. induction chunks as [|v vs IH]; intros s; simpl.
  - exists []. split; [|constructor].
    destruct (_ && _); now rewrite app_nil_r.
  - destruct (truthy (port s) && truthy (reader s)).
    2:{ exists []. split; [now rewrite app_nil_r | constructor]. }
    destruct (IH (readLoop_value v s)) as (new & E & F).
    destruct (list_eq_dec N.eq_dec v []) as [->|NE].
    + exists new. now split.
    + rewrite (readLoop_value_eq v s NE) in E. cbv zeta in E. simpl in E.
      eexists. split.
      * rewrite (readLoop_value_eq v s NE). cbv zeta.
        rewrite E, <- app_assoc. reflexivity.
      * apply Forall_app. split; [apply emitted_clean | exact F].
Qed.

(* ================================================================= *)
(** ** Connection Manager: further properties *)

Lemma disconnectPort_shape e s :
  truthy (port s) = true ->
  exists s1,
    disconnectPort e s = (Ok tt, set_isConnecting false (set_port None s1)).
Proof.
  intros H. unfold disconnectPort.
  unfold bind at 1. unfold gets at 1. rewrite H.
  match goal with
  | |- context [bind (tryCatch ?body ?h)] =>
      assert (T : total (tryCatch body h))
        by (apply total_tryCatch; intros; apply total_upd);
      destruct (T s) as [[] E]; unfold bind at 1;
      destruct (tryCatch body h s) as [r s1]
  end.
  simpl in E. subst r. now exists s1.
Qed.

Lemma disconnectPort_absent e s :
  truthy (port s) = false -> disconnectPort e s = (Ok tt, s).
Proof.
  intros H. unfold disconnectPort, bind, gets. now rewrite H.
Qed.

(** X4.  [disconnectPort] never throws, whatever fails during the
    teardown.  With a port it always ends with the port handle cleared
    and the busy flag reset; without a port it does nothing at all. *)
Theorem disconnectPort_settles (e : DisconnectEnv) (s : State) :
  result (disconnectPort e) s = Ok tt /\
  (truthy (port s) = true ->
   port (run (disconnectPort e) s) = None /\
   isConnecting (run (disconnectPort e) s) = false) /\
  (truthy (port s) = false -> disconnectPort e s = (Ok tt, s)).
Proof.
  unfold result, run. destruct (truthy (port s)) eqn:H.
  - destruct (disconnectPort_shape e s H) as [s1 ->]. simpl.
    split; [reflexivity|]. split; [now intros _ | discriminate].
  - rewrite (disconnectPort_absent e s H).
    split; [reflexivity|]. split; [discriminate | reflexivity].
Qed.

Lemma disconnectPort_settles_witness :
  let e := mkDisconnectEnv Resolves (Rejects (lit "locked"))
             (Rejects (lit "gone")) in
  (truthy (port (connected 3)) = true /\
   port (run (disconnectPort e) (connected 3)) = None /\
   isConnecting (run (disconnectPort e) (connected 3)) = false) /\
  (truthy (port initial) = false /\
   disconnectPort e initial = (Ok tt, initial)).
Proof.
  intros e. split.
  - split; [reflexivity|].
    exact (proj1 (proj2 (disconnectPort_settles e (connected 3))) eq_refl).
  - split; [reflexivity|].
    exact (proj2 (proj2 (disconnectPort_settles e initial)) eq_refl).
Defined.

(** X5.  When every step succeeds on a session whose port, reader,
    writer and pipes are all set, the teardown runs in this order:
    cancel the read, await the readable pipe, close the writer, await
    the writable pipe, close the port.  It then logs the disconnection
    and leaves every handle cleared. *)
Theorem disconnectPort_clean_order (s : State) (p : PortId) :
  port s = Some p ->
  truthy (reader s) = true ->
  truthy (readableStreamClosed s) = true ->
  truthy (writer s) = true ->
  truthy (writableStreamClosed s) = true ->
  let s' := run (disconnectPort (mkDisconnectEnv Resolves Resolves Resolves)) s in
  events (disconnectPort (mkDisconnectEnv Resolves Resolves Resolves)) s =
    [EvReaderCancel; EvAwaitReadableClosed; EvWriterClose;
     EvAwaitWritableClosed; EvPortClose p] /\
  LOG_LINES s' = LOG_LINES s ++ [lit "Disconnected from serial port."] /\
  port s' = None /\ reader s' = None /\ writer s' = None /\
  readableStreamClosed s' = None /\ writableStreamClosed s' = None /\
  textDecoder s' = None /\ textEncoder s' = None /\
  isConnecting s' = false.
Proof.
  intros Hp Hr Hrc Hw Hwc s'.
  unfold s', events, run, disconnectPort, tryCatch, bind, gets, when, ext, upd.
  cbn [fst snd port reader writer readableStreamClosed writableStreamClosed
       set_reader set_writer set_readableStreamClosed set_writableStreamClosed
       set_textDecoder set_textEncoder record].
  rewrite Hp. cbn [truthy]. rewrite Hr. cbn. rewrite Hrc. cbn.
  rewrite Hw. cbn. rewrite Hwc. cbn. rewrite Hp. cbn.
  rewrite <- !app_assoc. cbn. rewrite skipn_app_length.
  repeat split.
Qed.

Lemma disconnectPort_clean_order_witness :
  port (connected 2) = Some 2 /\
  truthy (reader (connected 2)) = true /\
  truthy (readableStreamClosed (connected 2)) = true /\
  truthy (writer (connected 2)) = true /\
  truthy (writableStreamClosed (connected 2)) = true /\
  events (disconnectPort (mkDisconnectEnv Resolves Resolves Resolves))
    (connected 2) =
    [EvReaderCancel; EvAwaitReadableClosed; EvWriterClose;
     EvAwaitWritableClosed; EvPortClose 2].
Proof.
  repeat (split; [reflexivity|]).
  exact (proj1 (disconnectPort_clean_order (connected 2) 2
                  eq_refl eq_refl eq_refl eq_refl eq_refl)).
Defined.

(** *** Stepping through a computation *)

Lemma bind_ok {A B} (m : M A) (k : A -> M B) s a t :
  m s = (Ok a, t) -> bind m k s = k a t.
Proof. intros E. unfold bind. now rewrite E. Qed.

Lemma bind_throw {A B} (m : M A) (k : A -> M B) s e t :
  m s = (Throw e, t) -> bind m k s = (Throw e, t).
Proof. intros E. unfold bind. now rewrite E. Qed.

Lemma bind_upd {B} f (k : unit -> M B) s : bind (upd f) k s = k tt (f s).
Proof. reflexivity. Qed.

Lemma bind_gets {A B} (f : State -> A) (k : A -> M B) s :
  bind (gets f) k s = k (f s) s.
Proof. reflexivity. Qed.

Lemma sleep_step ms rx s :
  exists t l,
    sleep ms rx s = (Ok tt, t) /\
    advanced s t l [EvDelay ms] /\
    writer t = writer s /\ port t = port s /\ reader t = reader s /\
    isConnecting t = isConnecting s.
Proof.
  unfold sleep, upd.
  destruct (received_readLoop rx (record (EvDelay ms) s)) as (l & b & ->).
  eexists _, l. split; [reflexivity|]. repeat split.
Qed.

Lemma write_step data o s w :
  writer s = Some w ->
  writer_write data o s =
  (match o with Resolves => Ok tt | Rejects m => Throw m end,
   record (EvWrite data) s).
Proof.
  intros W. unfold writer_write, bind, gets, ext. rewrite W. now destruct o.
Qed.

Lemma advanced_fold_logLine ls s :
  advanced s (fold_left (fun st l => logLine l st) ls s) ls [].
Proof.
  revert s. induction ls as [|l ls IH]; intros s; simpl.
  - apply advanced_refl.
  - apply (advanced_trans (advanced_logLine l s) (IH (logLine l s))).
Qed.

Lemma forEach_upd {X} (f : X -> State -> State) xs s :
  forEach xs (fun x => upd (f x)) s =
  (Ok tt, fold_left (fun st x => f x st) xs s).
Proof.
  revert s. induction xs as [|x xs IH]; intros s; [reflexivity|].
  simpl. rewrite bind_upd. apply IH.
Qed.

Lemma advanced_fold_log {X} (g : X -> str) xs s :
  advanced s (fold_left (fun st x => logLine (g x) st) xs s)
    (List.map g xs) [].
Proof.
  revert s. induction xs as [|x xs IH]; intros s; simpl.
  - apply advanced_refl.
  - apply (advanced_trans (advanced_logLine (g x) s) (IH (logLine (g x) s))).
Qed.

Lemma advanced_set_lineBuffer b s : advanced s (set_lineBuffer b s) [] [].
Proof. split; simpl; now rewrite app_nil_r. Qed.

(** What the handshake does, whatever the device sends. *)
Lemma handshake_shape e s :
  exists r t lines evs,
    performCLIHandshake e s = (r, t) /\
    advanced s t lines evs /\
    existsb isSetSignals evs = false /\
    (r = Ok tt ->
     exists n, 2 <= n /\
       In (lit "✅ Device is responding! Got " ++ ofNat n
           ++ lit " response lines") lines) /\
    (writer s <> None ->
     wake_res e = Resolves -> help_res e = Resolves -> ver_res e = Resolves ->
     r = Ok tt /\
     evs = [EvWrite [LF; LF]; EvDelay 500; EvWrite (lit "help" ++ [CR; LF]);
            EvDelay 800; EvWrite (lit "ver" ++ [CR; LF]); EvDelay 800]).
Proof.
  unfold performCLIHandshake.
  rewrite bind_upd, bind_gets, bind_upd.
  set (s1 := logLine (lit "Sending wake-up sequence...") (set_lineBuffer [] s)).
  assert (A1 : advanced s s1 [lit "Sending wake-up sequence..."] [])
    by (split; simpl; [reflexivity | now rewrite app_nil_r]).
  assert (W1 : writer s1 = writer s) by reflexivity.
  clearbody s1.
  destruct (writer s) as [w|] eqn:W.
  2:{ eexists _, _, _, _. split.
      { apply bind_throw. unfold writer_write, bind, gets. rewrite W1.
        reflexivity. }
      split; [exact A1|]. split; [reflexivity|]. split; [discriminate|].
      intros; congruence. }
  destruct (wake_res e) as [|m1] eqn:O1.
  2:{ eexists _, _, _, _. split.
      { apply bind_throw. rewrite (write_step _ _ _ _ W1). reflexivity. }
      split; [apply (advanced_trans A1 (advanced_record _ _))|].
      split; [reflexivity|]. split; [discriminate|].
      intros; congruence. }
  erewrite bind_ok by (rewrite (write_step _ _ _ _ W1); reflexivity).
  pose proof (advanced_trans A1 (advanced_record (EvWrite [LF; LF]) s1)) as A2.
  destruct (sleep_step 500 (rx_wake e) (record (EvWrite [LF; LF]) s1))
    as (s2 & l2 & E2 & A2' & W2 & _).
  rewrite (bind_ok _ _ _ _ _ E2), bind_upd.
  pose proof (advanced_trans (advanced_trans A2 A2')
                (advanced_logLine
                   (lit "Testing CLI responsiveness with probe commands...") s2))
    as A3.
  set (s3 := logLine _ s2) in *.
  assert (W3 : writer s3 = Some w)
    by (unfold s3; simpl; rewrite W2; simpl; exact W1).
  clearbody s3. clear A1 A2 A2' E2 W1 W2 s1 s2.
  destruct (help_res e) as [|m2] eqn:O2.
  2:{ eexists _, _, _, _. split.
      { apply bind_throw. rewrite (write_step _ _ _ _ W3). reflexivity. }
      split; [apply (advanced_trans A3 (advanced_record _ _))|].
      split; [reflexivity|]. split; [discriminate|].
      intros; congruence. }
  erewrite bind_ok by (rewrite (write_step _ _ _ _ W3); reflexivity).
  pose proof (advanced_trans A3
                (advanced_record (EvWrite (lit "help" ++ [CR; LF])) s3)) as A4.
  match goal with
  | |- context [bind (sleep 800 (rx_help e)) _ ?S] =>
      destruct (sleep_step 800 (rx_help e) S) as (s4 & l4 & E4 & A4' & W4 & _);
      rewrite (bind_ok _ _ _ _ _ E4)
  end.
  pose proof (advanced_trans A4 A4') as A5.
  assert (W5 : writer s4 = Some w) by (rewrite W4; simpl; exact W3).
  clear A3 A4 A4' E4 W3 W4 s3.
  destruct (ver_res e) as [|m3] eqn:O3.
  2:{ eexists _, _, _, _. split.
      { apply bind_throw. rewrite (write_step _ _ _ _ W5). reflexivity. }
      split; [apply (advanced_trans A5 (advanced_record _ _))|].
      split; [reflexivity|]. split; [discriminate|].
      intros; congruence. }
  erewrite bind_ok by (rewrite (write_step _ _ _ _ W5); reflexivity).
  pose proof (advanced_trans A5
                (advanced_record (EvWrite (lit "ver" ++ [CR; LF])) s4)) as A6.
  match goal with
  | |- context [bind (sleep 800 (rx_ver e)) _ ?S] =>
      destruct (sleep_step 800 (rx_ver e) S) as (s6 & l6 & E6 & A6' & _);
      rewrite (bind_ok _ _ _ _ _ E6)
  end.
  pose proof (advanced_trans A6 A6') as A7.
  clear A5 A6 A6' E6 W5 s4.
  rewrite bind_gets. cbn [LOG_LINES set_lineBuffer].
  rewrite (proj1 A7), skipn_app_length.
  match goal with
  | |- context [filter isResponsive ?L] => set (newLines := L) in *
  end.
  assert (HN : 2 <= length (filter isResponsive newLines)).
  { unfold newLines. rewrite !filter_app, !length_app.
    replace (filter isResponsive [lit "Sending wake-up sequence..."])
      with [lit "Sending wake-up sequence..."] by (vm_compute; reflexivity).
    replace (filter isResponsive
               [lit "Testing CLI responsiveness with probe commands..."])
      with [lit "Testing CLI responsiveness with probe commands..."]
      by (vm_compute; reflexivity).
    simpl. lia. }
  destruct (length (filter isResponsive newLines)) as [|n] eqn:EN; [lia|].
  cbn [Nat.ltb Nat.leb]. rewrite bind_upd.
  rewrite (forEach_upd (fun line => logLine (lit "📝 Response: " ++ dquote ++ line ++ dquote))).
  eexists _, _, _, _. split; [reflexivity|].
  split.
  { apply (advanced_trans
             (advanced_trans A7 (advanced_logLine _ s6))
             (advanced_fold_log
                (fun line => lit "📝 Response: " ++ dquote ++ line ++ dquote)
                _ _)). }
  split; [reflexivity|]. split.
  - intros _. exists (S n). split; [exact HN|].
    apply in_or_app. left. apply in_or_app. right. now left.
  - intros _ _ _ _. split; reflexivity.
Qed.

(** X8.  The handshake counts its own two progress lines among the
    device responses.  So whenever it returns, it has reported the
    device as responding, with a count of at least two, even if the
    device sent nothing; and the DTR/RTS wake-up is never performed. *)
Theorem performCLIHandshake_always_responding (e : HandshakeEnv) (s : State) :
  (forall dtr rts,
     ~ In (EvSetSignals dtr rts) (events (performCLIHandshake e) s)) /\
  (result (performCLIHandshake e) s = Ok tt ->
   exists n,
     2 <= n /\
     In (lit "✅ Device is responding! Got " ++ ofNat n
         ++ lit " response lines")
        (logged (performCLIHandshake e) s)).
Proof.
  destruct (handshake_shape e s) as (r & t & lines & evs & E & A & S & R & _).
  destruct (advanced_run (performCLIHandshake e) s lines evs) as [HL HE].
  { unfold run. now rewrite E. }
  split.
  - intros dtr rts H. rewrite HE in H.
    assert (X : existsb isSetSignals evs = true)
      by (apply existsb_exists; eexists; split; [exact H | reflexivity]).
    congruence.
  - unfold result. rewrite E. simpl. intros ->. rewrite HL. now apply R.
Qed.

(** A device that stays silent is still reported as responding. *)
Lemma performCLIHandshake_always_responding_witness :
  let e := mkHandshakeEnv Resolves [] Resolves [] Resolves []
             Resolves [] Resolves [] in
  result (performCLIHandshake e) (connected 0) = Ok tt /\
  logged (performCLIHandshake e) (connected 0) =
    [lit "Sending wake-up sequence...";
     lit "Testing CLI responsiveness with probe commands...";
     lit "✅ Device is responding! Got 2 response lines";
     lit "📝 Response: " ++ dquote ++ lit "Sending wake-up sequence..." ++ dquote;
     lit "📝 Response: " ++ dquote
       ++ lit "Testing CLI responsiveness with probe commands..." ++ dquote] /\
  exists n,
    2 <= n /\
    In (lit "✅ Device is responding! Got " ++ ofNat n
        ++ lit " response lines")
       (logged (performCLIHandshake e) (connected 0)).
Proof.
  intros e.
  assert (R : result (performCLIHandshake e) (connected 0) = Ok tt)
    by (vm_compute; reflexivity).
  split; [exact R|]. split; [vm_compute; reflexivity|].
  exact (proj2 (performCLIHandshake_always_responding e (connected 0)) R).
Defined.

(* ================================================================= *)
(** ** Command/Response Coordinator: further properties *)

(** The three ways through [sendCommand]. *)
Lemma sendCommand_shape (c : str) (e : SendEnv) (s : State) :
  result (sendCommand c e) s = Ok (ready s && resolves (write_res e)) /\
  events (sendCommand c e) s =
    EvSendCommand c ::
    (if ready s
     then EvWrite (c ++ [CR; LF]) ::
          (if resolves (write_res e) then [EvDelay 100] else [])
     else []) /\
  exists lines,
    LOG_LINES (run (sendCommand c e) s) =
    LOG_LINES s ++ lines ++
    [if ready s
     then match write_res e with
          | Resolves => lit "> " ++ c
          | Rejects message => lit "Write error: " ++ message
          end
     else lit "Error: Not connected to any port."].
Proof.
  unfold result, events, run, ready.
  unfold sendCommand, writer_write, sleep, ext, tryCatch, bind, gets, upd, ret.
  cbn [fst snd port writer isConnecting record].
  destruct (port s) as [p|] eqn:Hp; cbn [truthy negb orb andb].
  2:{ cbn. rewrite skipn_app_length. repeat split. now exists []. }
  destruct (writer s) as [w|] eqn:Hw; cbn [truthy negb orb andb].
  2:{ cbn. rewrite skipn_app_length. repeat split. now exists []. }
  destruct (isConnecting s) eqn:Hc; cbn [negb].
  { cbn. rewrite skipn_app_length. repeat split. now exists []. }
  cbn [writer record]. try rewrite Hw.
  destruct (write_res e) as [|m]; cbn [resolves fst snd].
  - set (s1 := record (EvDelay 100)
                 (record (EvWrite (c ++ [CR; LF]))
                    (record (EvSendCommand c) s))).
    destruct (received_readLoop (rx_flush e) s1) as (l & b & ->).
    unfold s1. cbn. rewrite <- !app_assoc. cbn. rewrite skipn_app_length.
    repeat split. exists l.
    first [reflexivity | now rewrite <- app_assoc | now rewrite app_assoc].
  - cbn. rewrite <- !app_assoc. cbn. rewrite skipn_app_length.
    repeat split. now exists [].
Qed.

(** X6.  [sendCommand] never throws.  It returns true exactly when a
    port and a writer are at hand, no connect is in flight and the
    write resolves.  It writes at most once, the command followed by
    CR LF, and only when the guard passes; the flush delay follows a
    successful write only.  Its last transcript line is the echo of the
    command, the write error, or the not-connected error. *)
Theorem sendCommand_outcome (c : str) (e : SendEnv) (s : State) :
  result (sendCommand c e) s = Ok (ready s && resolves (write_res e)) /\
  events (sendCommand c e) s =
    EvSendCommand c ::
    (if ready s
     then EvWrite (c ++ [CR; LF]) ::
          (if resolves (write_res e) then [EvDelay 100] else [])
     else []) /\
  exists lines,
    LOG_LINES (run (sendCommand c e) s) =
    LOG_LINES s ++ lines ++
    [if ready s
     then match write_res e with
          | Resolves => lit "> " ++ c
          | Rejects message => lit "Write error: " ++ message
          end
     else lit "Error: Not connected to any port."].
Proof. exact (sendCommand_shape c e s). Qed.

(** X7.  A prompt left in the last ten transcript lines by an earlier
    command ends [waitForPrompt] at its first poll: when nothing
    arrives before that poll, the wait returns with the state
    untouched, without waiting for the response to the command just
    sent. *)
Theorem waitForPrompt_stale_prompt
  (timeoutMs : N) (ticks : list Tick) (s : State) :
  hasPrompt (LOG_LINES s) = true ->
  tick_rx (hd idleTick ticks) = [] ->
  waitForPrompt timeoutMs ticks s = (Ok tt, s).
Proof.
  intros H R. unfold waitForPrompt. cbn [pollPrompt].
  unfold bind, upd, gets. cbn [fst snd]. rewrite R.
  assert (E : readLoop [] s = s)
    by (simpl; now destruct (truthy (port s) && truthy (reader s))).
  rewrite E. unfold promptCheck. now rewrite H.
Qed.

Lemma waitForPrompt_stale_prompt_witness :
  let s := set_LOG_LINES [lit "Selected MUX A, Channel 0"; lit "eeprom>";
                          lit "> er 0 64"] (connected 0) in
  hasPrompt (LOG_LINES s) = true /\
  tick_rx (hd idleTick []) = [] /\
  waitForPrompt 6000 [] s = (Ok tt, s).
Proof.
  intros s. split; [reflexivity|]. split; [reflexivity|].
  exact (waitForPrompt_stale_prompt 6000 [] s eq_refl eq_refl).
Defined.

(* ================================================================= *)
(** ** Connecting: further properties *)


(** *** Handles are left alone by waiting and logging *)

Lemma keepsHandles_upd f :
  (forall s, handles (f s) = handles s) -> keepsHandles (upd f).
Proof. intros H h s E. simpl. now rewrite H. Qed.

Lemma keepsHandles_sleep ms rx : keepsHandles (sleep ms rx).
Proof.
  intros h s E. simpl.
  now destruct (received_readLoop rx (record (EvDelay ms) s)) as (l & b & ->).
Qed.

Lemma keepsHandles_ext ev o : keepsHandles (ext ev o).
Proof. intros h s E. unfold ext. now destruct o. Qed.

Lemma keepsHandles_writer_write data o : keepsHandles (writer_write data o).
Proof.
  intros h. apply preserves_bind; [apply preserves_gets|].
  intros [w|]; [apply keepsHandles_ext | apply preserves_throw].
Qed.

Ltac handles_step :=
  lazymatch goal with
  | |- preserves _ (bind _ _) => apply preserves_bind; [|intros ?]
  | |- preserves _ (tryCatch _ _) => apply preserves_tryCatch; [|intros ?]
  | |- preserves _ (forEach _ _) => apply preserves_forEach; intros ?
  | |- preserves _ (when _ _) => apply preserves_when
  | |- preserves _ (gets _) => apply preserves_gets
  | |- preserves _ (ret _) => apply preserves_ret
  | |- preserves _ (throw _) => apply preserves_throw
  | |- preserves _ (sleep _ _) => apply keepsHandles_sleep
  | |- preserves _ (ext _ _) => apply keepsHandles_ext
  | |- preserves _ (writer_write _ _) => apply keepsHandles_writer_write
  | |- preserves _ (upd _) => apply keepsHandles_upd; reflexivity
  | |- preserves _ (if ?c then _ else _) => destruct c
  | |- preserves _ (let _ := _ in _) => cbv zeta
  end.

Lemma keepsHandles_performCLIHandshake e :
  keepsHandles (performCLIHandshake e).
Proof. intros h. unfold performCLIHandshake. repeat handles_step. Qed.

(** The handshake on a live writer whose three writes resolve. *)
Lemma handshake_ok e s w :
  writer s = Some w ->
  wake_res e = Resolves -> help_res e = Resolves -> ver_res e = Resolves ->
  exists t lines,
    performCLIHandshake e s = (Ok tt, t) /\
    advanced s t lines
      [EvWrite [LF; LF]; EvDelay 500; EvWrite (lit "help" ++ [CR; LF]);
       EvDelay 800; EvWrite (lit "ver" ++ [CR; LF]); EvDelay 800] /\
    handles t = handles s.
Proof.
  intros W O1 O2 O3.
  pose proof (keepsHandles_performCLIHandshake e (handles s) s eq_refl) as K.
  destruct (handshake_shape e s) as (r & t & lines & evs & E & A & _ & _ & F).
  rewrite E in K. simpl in K.
  destruct F as [-> ->]; try assumption; [congruence|].
  now exists t, lines.
Qed.

Lemma bind_ret {A B} (a : A) (k : A -> M B) s : bind (ret a) k s = k a s.
Proof. reflexivity. Qed.

Lemma bind_ext_ok {B} ev (k : unit -> M B) s :
  bind (ext ev Resolves) k s = k tt (record ev s).
Proof. reflexivity. Qed.

(** Stream set-up on an open port whose pipes can be attached. *)
Lemma setupSerialStreams_ok e s p :
  port s = Some p ->
  pipeReadable_res e = Resolves -> pipeWritable_res e = Resolves ->
  exists t,
    setupSerialStreams e s = (Ok tt, t) /\
    advanced s t [] [EvPipeReadable p; EvPipeWritable p; EvStartReadLoop] /\
    handles t = (Some p, Some p, Some p, isConnecting s).
Proof.
  intros Hp H1 H2.
  unfold setupSerialStreams, tryCatch, bind, gets, ext, upd.
  rewrite Hp, H1, H2. cbn [fst snd]. eexists. split; [reflexivity|].
  split; [split|]; unfold handles; simpl;
    rewrite ?app_nil_r, <- ?app_assoc; try reflexivity.
  now rewrite Hp.
Qed.

(** The [try] block of a connect in which everything succeeds. *)
Lemma openSelected_ok p e s :
  selected_readable e = false ->
  open_res e = Resolves ->
  pipeReadable_res (streams e) = Resolves ->
  pipeWritable_res (streams e) = Resolves ->
  wake_res (handshake e) = Resolves ->
  help_res (handshake e) = Resolves ->
  ver_res (handshake e) = Resolves ->
  exists t lines,
    openSelected p e s = (Ok tt, t) /\
    advanced s t lines (connectEvents p) /\
    handles t = (Some p, Some p, Some p, false).
Proof.
  intros Hr Ho H1 H2 W1 W2 W3. unfold openSelected.
  rewrite Hr. cbn [when]. rewrite bind_ret, bind_upd, Ho, bind_ext_ok.
  rewrite !bind_upd.
  match goal with
  | |- context [bind (sleep 2000 (rx_reset e)) _ ?S] =>
      pose proof (conj (eq_refl (LOG_LINES S)) (eq_refl (trace S))) as A0;
      assert (P0 : port S = Some p) by reflexivity;
      destruct (sleep_step 2000 (rx_reset e) S)
        as (s1 & l1 & E1 & A1 & _ & P1 & _ & C1);
      rewrite (bind_ok _ _ _ _ _ E1);
      rewrite <- P1 in P0; simpl in A0; clear E1
  end.
  destruct (setupSerialStreams_ok (streams e) s1 p P0 H1 H2)
    as (s2 & E2 & A2 & K2).
  rewrite (bind_ok _ _ _ _ _ E2), !bind_upd.
  match goal with
  | |- context [bind (performCLIHandshake (handshake e)) _ ?S] =>
      assert (W : writer S = Some p)
        by (simpl; unfold handles in K2; congruence);
      assert (K3 : handles S = (Some p, Some p, Some p, false))
        by (unfold handles in *; simpl; congruence);
      destruct (handshake_ok (handshake e) S p W W1 W2 W3)
        as (s3 & l3 & E3 & A3 & K4);
      rewrite (bind_ok _ _ _ _ _ E3), !bind_upd
  end.
  eexists _, _. split; [reflexivity|]. split.
  - destruct A1 as [L1 T1], A2 as [L2 T2], A3 as [L3 T3]. split.
    + simpl. rewrite L3. simpl. rewrite L2, L1. simpl.
      rewrite <- !app_assoc. reflexivity.
    + simpl. rewrite T3. simpl. rewrite T2, T1. simpl.
      rewrite <- !app_assoc. reflexivity.
  - unfold handles in *. simpl. congruence.
Qed.

(** X9.  A connect to the selected port in which the open, the stream
    set-up and the three probe writes succeed ends with port, reader
    and writer bound to that port and the busy flag cleared.  Its
    external actions are, in order: open the port, wait 2000 ms, attach
    the two pipes, start the read loop once, and the three probe writes
    with their waits; nothing is written before the 2000 ms wait. *)
Theorem connectToPort_success (e : ConnectEnv) (s : State) (p : PortId) :
  isConnecting s = false ->
  port s = None ->
  selection e = Some p ->
  selected_readable e = false ->
  open_res e = Resolves ->
  pipeReadable_res (streams e) = Resolves ->
  pipeWritable_res (streams e) = Resolves ->
  wake_res (handshake e) = Resolves ->
  help_res (handshake e) = Resolves ->
  ver_res (handshake e) = Resolves ->
  result (connectToPort e) s = Ok tt /\
  events (connectToPort e) s = connectEvents p /\
  handles (run (connectToPort e) s) = (Some p, Some p, Some p, false).
Proof.
  intros Hc Hp Hs Hr Ho H1 H2 W1 W2 W3.
  assert (E : exists t lines,
             connectToPort e s = (Ok tt, t) /\
             advanced s t lines (connectEvents p) /\
             handles t = (Some p, Some p, Some p, false)).
  { unfold connectToPort. rewrite bind_gets, Hc. unfold connectAttempt.
    rewrite bind_gets, Hp. cbn [truthy when].
    rewrite bind_ret, bind_upd, Hs, bind_upd. unfold tryCatch.
    match goal with
    | |- context [openSelected p e ?S] =>
        destruct (openSelected_ok p e S Hr Ho H1 H2 W1 W2 W3)
          as (t & l & E & A & K); rewrite E
    end.
    exists t. eexists. split; [reflexivity|]. split; [|exact K].
    destruct A as [AL AT]. split; simpl in *.
    - rewrite AL, <- app_assoc. reflexivity.
    - exact AT. }
  destruct E as (t & lines & E & A & K).
  destruct (advanced_run (connectToPort e) s lines (connectEvents p))
    as [_ HE]; [unfold run; now rewrite E|].
  unfold result, run. rewrite E. now repeat split.
Qed.

Lemma connectToPort_success_witness :
  let e := mkConnectEnv (mkDisconnectEnv Resolves Resolves Resolves)
             (Some 4) (Picked 4) (Granted 1) false Resolves []
             Resolves [] (mkStreamsEnv Resolves Resolves)
             (mkHandshakeEnv Resolves [] Resolves [] Resolves []
                Resolves [] Resolves []) in
  isConnecting initial = false /\
  port initial = None /\
  events (connectToPort e) initial = connectEvents 4 /\
  handles (run (connectToPort e) initial) = (Some 4, Some 4, Some 4, false).
Proof.
  intros e. split; [reflexivity|]. split; [reflexivity|].
  exact (proj2 (connectToPort_success e initial 4 eq_refl eq_refl eq_refl
                  eq_refl eq_refl eq_refl eq_refl eq_refl eq_refl eq_refl)).
Defined.

Lemma openSelected_rejected p e s message :
  selected_readable e = false ->
  open_res e = Rejects message ->
  openSelected p e s =
  (Throw message,
   record (EvPortOpen p) (logLine (lit "Opening serial connection...") s)).
Proof.
  intros Hr Ho. unfold openSelected. rewrite Hr. cbn [when].
  rewrite bind_ret, bind_upd, Ho. now apply bind_throw.
Qed.

Lemma handles_fold_logLine ls s :
  handles (fold_left (fun st l => logLine l st) ls s) = handles s.
Proof.
  revert s. induction ls as [|l ls IH]; intros s; [reflexivity|].
  simpl. now rewrite IH.
Qed.

Lemma fold_logLine_eq ls s :
  fold_left (fun st l => logLine l st) ls s =
  set_LOG_LINES (LOG_LINES s ++ ls) s.
Proof.
  revert s. induction ls as [|l ls IH]; intros s; simpl.
  - destruct s. unfold set_LOG_LINES. simpl. now rewrite app_nil_r.
  - rewrite IH. destruct s. unfold set_LOG_LINES, logLine. simpl.
    now rewrite <- app_assoc.
Qed.

Lemma openFailed_eq message s :
  openFailed message s =
  (Ok tt,
   set_isConnecting false
     (set_port None
        (fold_left (fun st l => logLine l st) (openHints message)
           (logLine (lit "❌ Error opening port: " ++ message) s)))).
Proof.
  unfold openFailed, openHints. rewrite bind_upd.
  destruct (includes message (lit "Failed to open serial port"));
    [|destruct (includes message (lit "not found"))];
    reflexivity.
Qed.

(** X10.  When the open of the selected port is rejected, the connect
    attempts nothing else: no stream is set up, nothing is written and
    the handles other than [port] are untouched.  The error is logged,
    with a hint when the message says that the port could not be opened
    or was not found, and the module is left without a port and with
    the busy flag cleared. *)
Theorem connectToPort_open_rejected
  (e : ConnectEnv) (s : State) (p : PortId) (message : str) :
  isConnecting s = false ->
  port s = None ->
  selection e = Some p ->
  selected_readable e = false ->
  open_res e = Rejects message ->
  result (connectToPort e) s = Ok tt /\
  events (connectToPort e) s = [EvPortOpen p] /\
  handles (run (connectToPort e) s) = (None, reader s, writer s, false) /\
  logged (connectToPort e) s =
    [lit "Attempting to connect to selected port...";
     lit "Opening serial connection...";
     lit "❌ Error opening port: " ++ message] ++ openHints message.
Proof.
  intros Hc Hp Hs Hr Ho.
  unfold result, events, logged, run, handles.
  unfold connectToPort. rewrite bind_gets, Hc. unfold connectAttempt.
  rewrite bind_gets, Hp. cbn [truthy when].
  rewrite bind_ret, bind_upd, Hs, bind_upd. unfold tryCatch.
  rewrite (openSelected_rejected p e _ message Hr Ho), openFailed_eq.
  cbn [fst snd].
  rewrite fold_logLine_eq. simpl.
  rewrite <- !app_assoc. simpl. rewrite !skipn_app_length.
  repeat split.
Qed.

Lemma connectToPort_open_rejected_witness :
  let e := mkConnectEnv (mkDisconnectEnv Resolves Resolves Resolves)
             (Some 4) (Picked 4) (Granted 1) false Resolves []
             (Rejects (lit "Failed to open serial port.")) []
             (mkStreamsEnv Resolves Resolves)
             (mkHandshakeEnv Resolves [] Resolves [] Resolves []
                Resolves [] Resolves []) in
  isConnecting initial = false /\
  port initial = None /\
  events (connectToPort e) initial = [EvPortOpen 4] /\
  handles (run (connectToPort e) initial) = (None, None, None, false).
Proof.
  intros e. split; [reflexivity|]. split; [reflexivity|].
  destruct (connectToPort_open_rejected e initial 4
              (lit "Failed to open serial port.")
              eq_refl eq_refl eq_refl eq_refl eq_refl) as (_ & H1 & H2 & _).
  split; [exact H1 | exact H2].
Defined.


(* ================================================================= *)
(** ** Scan Orchestrator: further properties *)

Lemma commandsSent_app a b :
  commandsSent (a ++ b) = commandsSent a ++ commandsSent b.
Proof.
  induction a as [|ev a IH]; [reflexivity|].
  destruct ev; simpl; now rewrite IH.
Qed.

Lemma in_followedBy xs ys x y :
  In x xs -> In y ys -> In (x ++ y) (followedBy xs ys).
Proof.
  intros Hx Hy. unfold followedBy. apply in_flat_map. exists x.
  split; [exact Hx|]. now apply in_map.
Qed.

Lemma sends_bind {A B} xs ys (m : M A) (k : A -> M B) :
  sends xs m -> (forall a, sends ys (k a)) ->
  sends (followedBy xs ys) (bind m k).
Proof.
  intros Hm Hk s. destruct (Hm s) as (a & t & evs & E & T & I).
  destruct (Hk a t) as (b & t' & evs' & E' & T' & I').
  exists b, t', (evs ++ evs'). split; [now rewrite (bind_ok _ _ _ _ _ E)|].
  split; [now rewrite T', T, app_assoc|].
  rewrite commandsSent_app. now apply in_followedBy.
Qed.

Lemma sends_weaken {A} xs ys (m : M A) :
  incl xs ys -> sends xs m -> sends ys m.
Proof.
  intros H Hm s. destruct (Hm s) as (a & t & evs & E & T & I).
  exists a, t, evs. repeat split; auto.
Qed.

Lemma sends_quiet {A} (m : M A) :
  (forall s, exists a t, m s = (Ok a, t) /\ trace t = trace s) ->
  sends [[]] m.
Proof.
  intros H s. destruct (H s) as (a & t & E & T). exists a, t, [].
  split; [exact E|]. split; [now rewrite app_nil_r | now left].
Qed.

Lemma sends_after {A B} ys (m : M A) (k : A -> M B) :
  sends [[]] m -> (forall a, sends ys (k a)) -> sends ys (bind m k).
Proof.
  intros Hm Hk. apply (sends_weaken (followedBy [[]] ys)).
  - unfold followedBy. simpl. rewrite app_nil_r, map_id. apply incl_refl.
  - now apply sends_bind.
Qed.

Lemma sends_logLine m : sends [[]] (upd (logLine m)).
Proof. apply sends_quiet. intros s. now exists tt, (logLine m s). Qed.

Lemma sends_gets {A} (f : State -> A) : sends [[]] (gets f).
Proof. apply sends_quiet. intros s. now exists (f s), s. Qed.

Lemma sends_ret {A} (a : A) : sends [[]] (ret a).
Proof. apply sends_quiet. intros s. now exists a, s. Qed.

Lemma sends_sleep ms rx : sends [[]] (sleep ms rx).
Proof.
  intros s. exists tt, (readLoop rx (record (EvDelay ms) s)), [EvDelay ms].
  split; [reflexivity|]. split; [now rewrite readLoop_trace | now left].
Qed.

Lemma sends_waitForPrompt timeoutMs ticks :
  sends [[]] (waitForPrompt timeoutMs ticks).
Proof.
  apply sends_quiet. intros s.
  destruct (waitForPrompt_received timeoutMs ticks s) as (t & E & l & b & ->).
  eexists tt, _. split; [exact E | reflexivity].
Qed.

Lemma sends_sendCommand c e : sends [[c]] (sendCommand c e).
Proof.
  intros s.
  destruct (sendCommand_advanced c e s) as (b & t & l & evs & E & [_ T] & _).
  destruct (sendCommand_shape c e s) as (_ & V & _).
  unfold events, run in V. rewrite E in V. simpl in V.
  rewrite T, skipn_app_length in V.
  exists b, t, (EvSendCommand c :: evs). split; [exact E|].
  split; [exact T|]. rewrite V. left.
  destruct (ready s); [destruct (resolves (write_res e))|]; reflexivity.
Qed.

Lemma sends_dumpAttempt snd ticks :
  sends [[hexDumpCmd]] (dumpAttempt snd ticks).
Proof.
  unfold dumpAttempt, waitForHexDumpComplete.
  apply (sends_weaken (followedBy [[hexDumpCmd]] [[]])); [apply incl_refl|].
  apply sends_bind; [apply sends_sendCommand|].
  intros _. apply sends_waitForPrompt.
Qed.

Lemma sends_hexDumpStage e :
  sends [[hexDumpCmd]; [hexDumpCmd; hexDumpCmd]] (hexDumpStage e).
Proof.
  unfold hexDumpStage.
  apply sends_after; [apply sends_gets|]. intros before.
  apply (sends_weaken
           (followedBy [[hexDumpCmd]] [[]; [hexDumpCmd]])); [apply incl_refl|].
  apply sends_bind; [apply sends_dumpAttempt|]. intros _.
  apply sends_after; [apply sends_gets|]. intros after.
  destruct (after =? before).
  - apply (sends_weaken [[hexDumpCmd]]); [intros x [<-|[]]; simpl; auto|].
    unfold retryDump.
    apply sends_after; [apply sends_logLine|]. intros _.
    apply sends_after; [apply sends_sleep|]. intros _.
    apply sends_dumpAttempt.
  - apply (sends_weaken [[]]); [intros x [<-|[]]; simpl; auto|].
    apply sends_ret.
Qed.

Lemma sends_scanChannel mux channel e :
  sends (channelProtocol mux channel) (scanChannel mux channel e).
Proof.
  unfold scanChannel, waitForEEPROMReadComplete.
  apply sends_after; [apply sends_logLine|]. intros _.
  apply (sends_weaken
           (followedBy [[selectCommand mux channel]]
              [[]; [lit "er 0 64"; hexDumpCmd];
               [lit "er 0 64"; hexDumpCmd; hexDumpCmd]]));
    [apply incl_refl|].
  apply sends_bind; [apply (sends_sendCommand (selectCommand mux channel))|].
  intros sent. destruct (negb sent).
  { apply (sends_weaken [[]]); [intros x [<-|[]]; simpl; auto|].
    apply sends_ret. }
  apply sends_after; [apply sends_waitForPrompt|]. intros _.
  apply sends_after; [apply sends_gets|]. intros recentLog.
  destruct (_ || _).
  { apply (sends_weaken [[]]); [intros x [<-|[]]; simpl; auto|].
    apply sends_logLine. }
  apply (sends_weaken [[lit "er 0 64"; hexDumpCmd];
                       [lit "er 0 64"; hexDumpCmd; hexDumpCmd]]);
    [intros x [<-|[<-|[]]]; simpl; auto|].
  apply sends_after; [apply sends_logLine|]. intros _.
  apply (sends_weaken
           (followedBy [[lit "er 0 64"]]
              [[hexDumpCmd]; [hexDumpCmd; hexDumpCmd]])); [apply incl_refl|].
  apply sends_bind; [apply (sends_sendCommand (lit "er 0 64"))|]. intros _.
  apply sends_after; [apply sends_waitForPrompt|]. intros _.
  apply sends_after; [apply sends_sleep|]. intros _.
  apply (sends_weaken
           (followedBy [[hexDumpCmd]; [hexDumpCmd; hexDumpCmd]] [[]])).
  { unfold followedBy. simpl. intros x [<-|[<-|[]]]; simpl; auto. }
  apply sends_bind; [apply sends_hexDumpStage|]. intros _.
  apply sends_sleep.
Qed.

(** X11.  The scan of a channel never throws, and the commands it
    issues are, in order, the select alone (when the select could not
    be sent or was answered by an error), or the select, the buffer
    read and one hex dump, or those followed by the one retry. *)
Theorem scanChannel_protocol (mux : Mux) (channel : nat) (e : ChannelEnv)
  (s : State) :
  result (scanChannel mux channel e) s = Ok tt /\
  In (commandsSent (events (scanChannel mux channel e) s))
     (channelProtocol mux channel).
Proof.
  destruct (sends_scanChannel mux channel e s) as ([] & t & evs & E & T & I).
  unfold result, events, run. rewrite E. simpl.
  now rewrite T, skipn_app_length.
Qed.

Lemma selects_bind {A B} xs ys (m : M A) (k : A -> M B) :
  selects xs m -> (forall a, selects ys (k a)) -> selects (xs ++ ys) (bind m k).
Proof.
  intros Hm Hk s. destruct (Hm s) as (a & t & evs & E & T & I).
  destruct (Hk a t) as (b & t' & evs' & E' & T' & I').
  exists b, t', (evs ++ evs'). split; [now rewrite (bind_ok _ _ _ _ _ E)|].
  split; [now rewrite T', T, app_assoc|].
  now rewrite commandsSent_app, filter_app, I, I'.
Qed.

Lemma selects_forEach {X} (f : X -> list str) xs (body : X -> M unit) :
  (forall x, selects (f x) (body x)) ->
  selects (flat_map f xs) (forEach xs body).
Proof.
  intros H. induction xs as [|x xs IH]; simpl.
  - intros s. exists tt, s, []. split; [reflexivity|].
    split; [now rewrite app_nil_r | reflexivity].
  - apply selects_bind; [apply H | intros _; exact IH].
Qed.

Lemma isSelectCommand_select mux channel :
  isSelectCommand (selectCommand mux channel) = true.
Proof. destruct mux; reflexivity. Qed.

Lemma selects_scanChannel mux channel e :
  selects [selectCommand mux channel] (scanChannel mux channel e).
Proof.
  intros s.
  destruct (sends_scanChannel mux channel e s) as (a & t & evs & E & T & I).
  exists a, t, evs. split; [exact E|]. split; [exact T|].
  destruct I as [<-|[<-|[<-|[]]]]; cbn [filter];
    rewrite isSelectCommand_select; reflexivity.
Qed.

Lemma selects_scanSweep env :
  selects (List.map (fun mc => selectCommand (fst mc) (snd mc)) sweepOrder)
    (scanSweep env).
Proof.
  change (List.map (fun mc => selectCommand (fst mc) (snd mc)) sweepOrder)
    with (flat_map
            (fun mux =>
               [] ++ flat_map (fun ch => [selectCommand mux ch]) channelRange)
            muxChannels).
  unfold scanSweep. apply selects_forEach. intros mux.
  apply selects_bind.
  - intros s. eexists tt, _, []. split; [reflexivity|].
    split; [simpl; now rewrite app_nil_r | reflexivity].
  - intros _. apply selects_forEach. intros ch. apply selects_scanChannel.
Qed.

(** X12.  The sweep never throws and selects every channel coordinate
    exactly once, bus A before bus B and indices 0 to 15 in order,
    whatever happens on the individual channels: a channel that fails
    does not stop the sweep. *)
Theorem scanSweep_select_order (env : Mux -> nat -> ChannelEnv) (s : State) :
  result (scanSweep env) s = Ok tt /\
  filter isSelectCommand (commandsSent (events (scanSweep env) s)) =
    List.map (fun mc => selectCommand (fst mc) (snd mc)) sweepOrder /\
  length sweepOrder = 32 /\
  NoDup sweepOrder.
Proof.
  destruct (selects_scanSweep env s) as ([] & t & evs & E & T & I).
  unfold result, events, run. rewrite E. simpl.
  rewrite T, skipn_app_length.
  split; [reflexivity|]. split; [exact I|]. split; [reflexivity|].
  unfold sweepOrder, muxChannels, channelRange. simpl.
  repeat (constructor; [simpl; intuition discriminate|]). constructor.
Qed.

(** *** A transport that is not ready *)

Lemma ready_handles s t : handles t = handles s -> ready t = ready s.
Proof. unfold handles, ready. intros H. injection H as -> _ -> ->. reflexivity. Qed.

Lemma sendCommand_refused c e s :
  ready s = false ->
  sendCommand c e s =
  (Ok false,
   logLine (lit "Error: Not connected to any port.")
     (record (EvSendCommand c) s)).
Proof.
  unfold ready. intros H. unfold sendCommand, bind, gets, upd, ret. simpl.
  destruct (truthy (port s)), (truthy (writer s)), (isConnecting s);
    try discriminate; reflexivity.
Qed.

Lemma scanChannel_refused mux channel e s :
  ready s = false ->
  exists t lines,
    scanChannel mux channel e s = (Ok tt, t) /\
    advanced s t lines [EvSendCommand (selectCommand mux channel)] /\
    handles t = handles s.
Proof.
  intros H. unfold scanChannel. rewrite bind_upd.
  erewrite bind_ok by (apply sendCommand_refused; exact H).
  cbn [negb]. eexists _, [_; _]. split; [reflexivity|].
  split; [split; simpl; now rewrite <- ?app_assoc | reflexivity].
Qed.

Lemma forEach_refused {X} (f : X -> list Event) xs (body : X -> M unit) :
  (forall x s, ready s = false ->
     exists t lines, body x s = (Ok tt, t) /\
                     advanced s t lines (f x) /\ handles t = handles s) ->
  forall s, ready s = false ->
    exists t lines, forEach xs body s = (Ok tt, t) /\
                    advanced s t lines (flat_map f xs) /\
                    handles t = handles s.
Proof.
  intros H. induction xs as [|x xs IH]; intros s R; simpl.
  - exists s, []. split; [reflexivity|]. split; [apply advanced_refl | reflexivity].
  - destruct (H x s R) as (t & l & E & A & K).
    destruct (IH t) as (t' & l' & E' & A' & K').
    { now rewrite (ready_handles s t K). }
    exists t', (l ++ l'). split; [now rewrite (bind_ok _ _ _ _ _ E)|].
    split; [apply (advanced_trans A A') | congruence].
Qed.

(** X13.  On a transport that is not ready (no port, no writer, or a
    connect in flight) the sweep still visits all 32 channels, but it
    only attempts the select of each: nothing is written, no read or
    dump command is issued, and the handles are left as they were. *)
Theorem scanSweep_not_ready (env : Mux -> nat -> ChannelEnv) (s : State) :
  ready s = false ->
  result (scanSweep env) s = Ok tt /\
  events (scanSweep env) s =
    List.map (fun mc => EvSendCommand (selectCommand (fst mc) (snd mc)))
      sweepOrder /\
  handles (run (scanSweep env) s) = handles s.
Proof.
  intros R.
  assert (H : exists t lines,
             scanSweep env s = (Ok tt, t) /\
             advanced s t lines
               (flat_map
                  (fun mux =>
                     flat_map
                       (fun ch => [EvSendCommand (selectCommand mux ch)])
                       channelRange) muxChannels) /\
             handles t = handles s).
  { unfold scanSweep. apply forEach_refused; [|exact R].
    intros mux s0 R0. rewrite bind_upd.
    destruct (forEach_refused
                (fun ch => [EvSendCommand (selectCommand mux ch)])
                channelRange
                (fun ch => scanChannel mux ch (env mux ch))
                (fun ch s1 R1 => scanChannel_refused mux ch (env mux ch) s1 R1)
                (logLine ([LF] ++ lit "=== Scanning MUX " ++ muxUpper mux
                          ++ lit " ===") s0) R0)
      as (t & l & E & A & K).
    exists t. eexists. split; [exact E|]. split; [|exact K].
    apply (advanced_trans (advanced_logLine _ s0) A). }
  destruct H as (t & lines & E & A & K).
  destruct (advanced_run (scanSweep env) s _ _
              ltac:(unfold run; rewrite E; exact A)) as [_ HE].
  unfold result, run. rewrite E. simpl. repeat split; assumption.
Qed.

Lemma scanSweep_not_ready_witness :
  let env := fun _ _ =>
    mkChannelEnv (mkSendEnv Resolves []) [] (mkSendEnv Resolves []) [] []
      (mkSendEnv Resolves []) [] [] (mkSendEnv Resolves []) [] [] in
  ready initial = false /\
  length (events (scanSweep env) initial) = 32 /\
  existsb isWrite (events (scanSweep env) initial) = false.
Proof.
  intros env. split; [reflexivity|].
  destruct (scanSweep_not_ready env initial eq_refl) as (_ & H & _).
  rewrite H. split; reflexivity.
Defined.

(** *** The transcript is only appended to *)

Lemma appendsOnly_bind {A B} (m : M A) (k : A -> M B) :
  appendsOnly m -> (forall a, appendsOnly (k a)) -> appendsOnly (bind m k).
Proof.
  intros Hm Hk s. destruct (Hm s) as [l E]. unfold bind.
  destruct (m s) as [[a|e] t]; simpl in *.
  - destruct (Hk a t) as [l' E']. exists (l ++ l').
    now rewrite E', E, app_assoc.
  - now exists l.
Qed.

Lemma appendsOnly_received {A} (m : M A) :
  (forall s, received s (snd (m s))) -> appendsOnly m.
Proof. intros H s. destruct (H s) as (l & b & ->). now exists l. Qed.

Lemma appendsOnly_logLine m : appendsOnly (upd (logLine m)).
Proof. intros s. now exists [m]. Qed.

Lemma appendsOnly_quiet {A} (m : M A) :
  (forall s, LOG_LINES (snd (m s)) = LOG_LINES s) -> appendsOnly m.
Proof. intros H s. exists []. now rewrite H, app_nil_r. Qed.

Lemma appendsOnly_sleep ms rx : appendsOnly (sleep ms rx).
Proof.
  intros s. simpl.
  destruct (received_readLoop rx (record (EvDelay ms) s)) as (l & b & ->).
  now exists l.
Qed.

Lemma appendsOnly_sendCommand c e : appendsOnly (sendCommand c e).
Proof.
  intros s. destruct (sendCommand_advanced c e s) as (b & t & l & evs & E & [L _] & _).
  rewrite E. now exists l.
Qed.

Lemma appendsOnly_waitForPrompt timeoutMs ticks :
  appendsOnly (waitForPrompt timeoutMs ticks).
Proof.
  intros s.
  destruct (waitForPrompt_received timeoutMs ticks s) as (t & E & l & b & ->).
  rewrite E. now exists l.
Qed.

Lemma appendsOnly_forEach {X} xs (body : X -> M unit) :
  (forall x, appendsOnly (body x)) -> appendsOnly (forEach xs body).
Proof.
  intros H. induction xs as [|x xs IH]; simpl.
  - apply appendsOnly_quiet. reflexivity.
  - apply appendsOnly_bind; auto.
Qed.

Ltac appends_step :=
  lazymatch goal with
  | |- appendsOnly (bind _ _) => apply appendsOnly_bind; [|intros ?]
  | |- appendsOnly (forEach _ _) => apply appendsOnly_forEach; intros ?
  | |- appendsOnly (upd (logLine _)) => apply appendsOnly_logLine
  | |- appendsOnly (sleep _ _) => apply appendsOnly_sleep
  | |- appendsOnly (sendCommand _ _) => apply appendsOnly_sendCommand
  | |- appendsOnly (waitForPrompt _ _) => apply appendsOnly_waitForPrompt
  | |- appendsOnly (gets _) => apply appendsOnly_quiet; reflexivity
  | |- appendsOnly (ret _) => apply appendsOnly_quiet; reflexivity
  | |- appendsOnly (if ?c then _ else _) => destruct c
  end.

Lemma appendsOnly_scanSweep env : appendsOnly (scanSweep env).
Proof.
  unfold scanSweep, scanChannel, hexDumpStage, retryDump, dumpAttempt,
    waitForEEPROMReadComplete, waitForHexDumpComplete.
  repeat appends_step.
Qed.

(** X14.  Nothing in a sweep removes or rewrites a transcript line:
    the transcript after the sweep is the transcript before it followed
    by new lines. *)
Theorem scanSweep_appends (env : Mux -> nat -> ChannelEnv) (s : State) :
  exists lines,
    LOG_LINES (run (scanSweep env) s) = LOG_LINES s ++ lines.
Proof.
  exact (appendsOnly_scanSweep env s).
Qed.


(* ================================================================= *)
(** ** Stability wait *)

Lemma readLoop_handles rx s : handles (readLoop rx s) = handles s.
Proof.
  destruct (received_readLoop rx s) as (l & b & ->). reflexivity.
Qed.

Lemma readLoop_advanced rx s :
  exists l, advanced s (readLoop rx s) l [].
Proof.
  destruct (received_readLoop rx s) as (l & b & ->).
  exists l. split; simpl; [reflexivity | now rewrite app_nil_r].
Qed.

(** One poll that neither finds the transcript stable for the fourth
    time nor is past the timeout arms the next timer. *)
Lemma checkForStability_step timeoutMs j fuel lastLineCount stableCount ticks s :
  stableCount < 3 ->
  (100 + 50 * j + tick_lag (hd idleTick ticks) <= timeoutMs)%N ->
  exists lastLineCount' stableCount',
    stableCount' <= S stableCount /\
    checkForStability timeoutMs j (S fuel) lastLineCount stableCount ticks s =
    checkForStability timeoutMs (j + 1) fuel lastLineCount' stableCount'
      (tl ticks)
      (record (EvDelay 50) (readLoop (tick_rx (hd idleTick ticks)) s)).
Proof.
  intros Hs Ht. cbn [checkForStability].
  rewrite bind_upd, bind_gets.
  apply N.ltb_ge in Ht. rewrite Ht.
  destruct (_ =? lastLineCount).
  - destruct (Nat.leb_spec 4 (S stableCount)) as [L|L]; [lia|].
    exists lastLineCount, (S stableCount). split; [lia|]. now rewrite bind_upd.
  - eexists _, 0. split; [lia|]. now rewrite bind_upd.
Qed.

(** The polls end by themselves, within the fuel, and only timers of
    50 ms are armed in between. *)
Lemma checkForStability_resolves timeoutMs fuel :
  forall j lastLineCount stableCount ticks s,
    (j <= timeoutMs / 50)%N ->
    (timeoutMs / 50 < j + N.of_nat fuel)%N ->
    exists t lines n,
      checkForStability timeoutMs j fuel lastLineCount stableCount ticks s
      = (Ok tt, t) /\
      advanced s t lines (repeat (EvDelay 50) n) /\
      handles t = handles s /\
      (j + N.of_nat n <= timeoutMs / 50)%N.
Proof.
  induction fuel as [|fuel IH]; intros j llc sc ticks s Hj Hf; [lia|].
  cbn [checkForStability]. rewrite bind_upd, bind_gets.
  set (tk := hd idleTick ticks).
  set (s1 := readLoop (tick_rx tk) s).
  destruct (readLoop_advanced (tick_rx tk) s) as (l1 & A1).
  fold s1 in A1.
  assert (H1 : handles s1 = handles s) by apply readLoop_handles.
  assert (Stop : exists t lines n,
             (Ok tt, s1) = (Ok tt, t) /\
             advanced s t lines (repeat (EvDelay 50) n) /\
             handles t = handles s /\
             (j + N.of_nat n <= timeoutMs / 50)%N).
  { exists s1, l1, 0. repeat split; try apply A1; try exact H1.
    rewrite N.add_0_r. exact Hj. }
  assert (Next : forall llc' sc',
             exists t lines n,
               (if (timeoutMs <? 100 + 50 * j + tick_lag tk)%N then ret tt
                else upd (record (EvDelay 50)) ;;
                     checkForStability timeoutMs (j + 1) fuel llc' sc'
                       (tl ticks))%js s1 = (Ok tt, t) /\
               advanced s t lines (repeat (EvDelay 50) n) /\
               handles t = handles s /\
               (j + N.of_nat n <= timeoutMs / 50)%N).
  { intros llc' sc'.
    destruct (N.ltb_spec timeoutMs (100 + 50 * j + tick_lag tk)) as [L|L];
      [exact Stop|].
    rewrite bind_upd.
    assert (Hd : (j + 2 <= timeoutMs / 50)%N).
    { apply N.div_le_lower_bound; lia. }
    destruct (IH (j + 1)%N llc' sc' (tl ticks) (record (EvDelay 50) s1))
      as (t & l2 & n & E & A2 & H2 & B); [lia | lia |].
    exists t, (l1 ++ l2), (S n). split; [exact E|]. split; [|split].
    - change (repeat (EvDelay 50) (S n))
        with ([] ++ ([EvDelay 50] ++ repeat (EvDelay 50) n)).
      apply (advanced_trans A1).
      rewrite <- (app_nil_l l2).
      apply (advanced_trans (advanced_record (EvDelay 50) s1) A2).
    - rewrite H2. exact H1.
    - lia. }
  destruct (_ =? llc).
  - destruct (4 <=? S sc); [exact Stop | apply Next].
  - apply Next.
Qed.

Lemma waitForCompleteResponse_shape
  (timeoutMs : N) (ticks : list Tick) (s : State) :
  exists t lines n,
    waitForCompleteResponse timeoutMs ticks s = (Ok tt, t) /\
    advanced s t lines (EvDelay 100 :: repeat (EvDelay 50) n) /\
    handles t = handles s /\
    (N.of_nat n <= timeoutMs / 50)%N.
Proof.
  unfold waitForCompleteResponse. rewrite bind_gets, bind_upd.
  destruct (checkForStability_resolves timeoutMs
              (S (N.to_nat (timeoutMs / 50))) 0 (length (LOG_LINES s)) 0
              ticks (record (EvDelay 100) s))
    as (t & lines & n & E & A & H & B);
    [apply N.le_0_l | rewrite Nat2N.inj_succ, N2Nat.id; lia |].
  exists t, lines, n. split; [exact E|]. split; [|split].
  - rewrite <- (app_nil_l lines).
    apply (advanced_trans (advanced_record (EvDelay 100) s) A).
  - rewrite H. reflexivity.
  - exact B.
Qed.

Lemma nth_iter_tl {X} j (l : list X) d :
  nth j l d = hd d (Nat.iter j (@tl X) l).
Proof.
  revert l. induction j as [|j IH]; intros l.
  - now destruct l.
  - change (Nat.iter (S j) (@tl X) l) with (tl (Nat.iter j (@tl X) l)).
    rewrite <- Nat.iter_swap, <- IH. destruct l; [now destruct j | reflexivity].
Qed.

(** X15.  [waitForCompleteResponse] always resolves: it arms the timer
    of 100 ms and then [n] timers of 50 ms, with [n] at most
    [timeoutMs / 50]; it only lets the read loop append lines to the
    transcript, and leaves the handles and the busy flag alone. *)
Theorem waitForCompleteResponse_resolves
  (timeoutMs : N) (ticks : list Tick) (s : State) :
  exists t lines n,
    waitForCompleteResponse timeoutMs ticks s = (Ok tt, t) /\
    advanced s t lines (EvDelay 100 :: repeat (EvDelay 50) n) /\
    handles t = handles s /\
    (N.of_nat n <= timeoutMs / 50)%N.
Proof. exact (waitForCompleteResponse_shape timeoutMs ticks s). Qed.

(** X16.  The wait never ends before the fourth poll unless the timeout
    cuts it short: when the first three polls fire within the timeout,
    at least the timers of 100, 50, 50 and 50 ms are armed, so the wait
    lasts 250 ms or more even if the reply was complete at once. *)
Theorem waitForCompleteResponse_at_least
  (timeoutMs : N) (ticks : list Tick) (s : State) :
  (forall j, j < 3 ->
     (100 + 50 * N.of_nat j + tick_lag (nth j ticks idleTick) <= timeoutMs)%N) ->
  exists n,
    events (waitForCompleteResponse timeoutMs ticks) s =
    EvDelay 100 :: repeat (EvDelay 50) (3 + n).
Proof.
  intros H.
  assert (F : exists f, S (N.to_nat (timeoutMs / 50)) = S (S (S (S f)))).
  { assert (4 <= timeoutMs / 50)%N.
    { apply N.div_le_lower_bound; [lia|]. specialize (H 2 ltac:(lia)). lia. }
    remember (timeoutMs / 50)%N as q.
    exists (N.to_nat q - 3). lia. }
  destruct F as (f & F).
  assert (H0 := H 0 ltac:(lia)). assert (H1 := H 1 ltac:(lia)).
  assert (H2 := H 2 ltac:(lia)).
  rewrite nth_iter_tl in H0, H1, H2. cbn [Nat.iter nat_rect] in H0, H1, H2.
  unfold events, run, waitForCompleteResponse.
  rewrite bind_gets, bind_upd, F.
  set (s0 := record (EvDelay 100) s).
  destruct (checkForStability_step timeoutMs 0 (S (S (S f)))
              (length (LOG_LINES s)) 0 ticks s0)
    as (l1 & c1 & C1 & ->); [lia | exact H0 |].
  set (s1 := record (EvDelay 50) (readLoop _ s0)).
  destruct (checkForStability_step timeoutMs (0 + 1) (S (S f)) l1 c1
              (tl ticks) s1)
    as (l2 & c2 & C2 & ->); [lia | exact H1 |].
  set (s2 := record (EvDelay 50) (readLoop _ s1)).
  destruct (checkForStability_step timeoutMs (0 + 1 + 1) (S f) l2 c2
              (tl (tl ticks)) s2)
    as (l3 & c3 & C3 & ->); [lia | exact H2 |].
  set (s3 := record (EvDelay 50) (readLoop _ s2)).
  assert (D : (3 <= timeoutMs / 50)%N).
  { apply N.div_le_lower_bound; lia. }
  destruct (checkForStability_resolves timeoutMs (S f) (0 + 1 + 1 + 1) l3 c3
              (tl (tl (tl ticks))) s3)
    as (t & lines & n & -> & A & _ & _); [lia | lia |].
  exists n. cbn [snd]. destruct A as (_ & ->).
  subst s3 s2 s1 s0. cbn [trace record]. rewrite !readLoop_trace.
  cbn [trace record]. rewrite !readLoop_trace. cbn [trace record].
  rewrite !readLoop_trace. cbn [trace record].
  rewrite <- !app_assoc. rewrite skipn_app_length. reflexivity.
Qed.

Lemma waitForCompleteResponse_at_least_witness :
  exists n,
    events (waitForCompleteResponse 2000
              [mkTick [Chunk (lit "ok" ++ [LF])] 3; mkTick [] 0;
               mkTick [Chunk (lit "> " ++ [LF])] 7]) (connected 1) =
    EvDelay 100 :: repeat (EvDelay 50) (3 + n).
Proof.
  apply waitForCompleteResponse_at_least.
  intros j Hj.
  destruct j as [|[|[|j]]]; [vm_compute; discriminate ..|lia].
Defined.

(** X17.  A silent device costs 250 ms whatever the timeout: when
    nothing arrives and the timers fire on time, a wait with a timeout
    of 200 ms or more arms exactly the timers of 100, 50, 50 and 50 ms
    and changes nothing else. *)
Theorem waitForCompleteResponse_silent (timeoutMs : N) (s : State) :
  (200 <= timeoutMs)%N ->
  waitForCompleteResponse timeoutMs [] s =
  (Ok tt,
   fold_left (fun st ms => record (EvDelay ms) st) [100; 50; 50; 50]%N s).
Proof.
  intros H.
  assert (F : exists f, S (N.to_nat (timeoutMs / 50)) = S (S (S (S (S f))))).
  { assert (4 <= timeoutMs / 50)%N by (apply N.div_le_lower_bound; lia).
    remember (timeoutMs / 50)%N as q.
    exists (N.to_nat q - 4). lia. }
  destruct F as (f & F).
  assert (R : forall st, readLoop [] st = st).
  { intros st. simpl. now destruct (truthy (port st) && truthy (reader st)). }
  unfold waitForCompleteResponse. rewrite bind_gets, bind_upd, F.
  cbn [checkForStability hd tl idleTick tick_rx tick_lag fold_left].
  repeat (rewrite bind_upd, R, bind_gets; cbn [LOG_LINES record];
          rewrite Nat.eqb_refl; cbn [Nat.leb];
          try match goal with
              | |- context [(timeoutMs <? ?x)%N] =>
                  destruct (N.ltb_spec timeoutMs x) as [L|L]; [lia | clear L]
              end;
          try rewrite bind_upd).
  reflexivity.
Qed.

Lemma waitForCompleteResponse_silent_witness :
  (200 <= 1000)%N /\
  trace (snd (waitForCompleteResponse 1000 [] (connected 1))) =
  [EvDelay 100; EvDelay 50; EvDelay 50; EvDelay 50].
Proof.
  split; [vm_compute; discriminate|].
  rewrite (waitForCompleteResponse_silent 1000 (connected 1));
    [reflexivity | vm_compute; discriminate].
Defined.
